(** * ArcGISIdentityManager: token lifecycle, federation and request de-duplication

    A shallow embedding of the credential manager of
    [@esri/arcgis-rest-request] ([ArcGISIdentityManager.js]) and the
    properties its specification states about it.

    Conventions of the embedding.
    - A JavaScript string is a [string]; a character is a UTF-16 code unit
      below 256, which covers every URL the manager is given.
    - A [Date] is identified with its time value, epoch milliseconds in [Z];
      [Date.now()] is the [now] field of the world.
    - An optional property is an [option]; JavaScript truthiness is written
      out ([truthy]): an absent or empty string is falsy, a [Date] or a
      promise is truthy.
    - A promise chain is a program of the resumption monad [Async]: it runs
      until its next transport request and is resumed by the reply.
      A chain of callbacks runs to completion between two transport events
      (the event loop's run-to-completion discipline).
    - The transport ([request], [fetchToken]) is the environment: a request
      is recorded in the world, its reply or failure is an event, and so are
      the calls of the manager's methods, among them those that the
      transport makes for a request that carries [authentication: this].

    The file has the data model, the methods and the event loop first, then
    what the properties are stated with, then the properties, and last the
    properties applied to example managers. *)

From stdpp Require Import gmap strings list.
From Stdlib Require Import ZArith Ascii String.

Local Open Scope string_scope.
Local Open Scope Z_scope.

(** ** Strings as JavaScript sees them *)

Module Js.

Definition code (c : ascii) : N := N_of_ascii c.

(** [String.prototype.trim] strips white space and line terminators; among
    the code units below 256 these are TAB, LF, VT, FF, CR, SP and NBSP. *)
Definition is_space (c : ascii) : bool :=
  let n := code c in
  ((9 <=? n) && (n <=? 13) || (n =? 32) || (n =? 160))%N.

(** The regular expression atom [.] matches anything but a line terminator
    (LF and CR among the code units below 256). *)
Definition is_line_terminator (c : ascii) : bool :=
  let n := code c in ((n =? 10) || (n =? 13))%N.

(** [String.prototype.toLowerCase] on one code unit: A-Z and the Latin-1
    capitals U+00C0-U+00DE (the multiplication sign U+00D7 apart). *)
Definition lower_char (c : ascii) : ascii :=
  let n := code c in
  if ((65 <=? n) && (n <=? 90)
      || (192 <=? n) && (n <=? 222) && negb (n =? 215))%N
  then ascii_of_N (n + 32) else c.

Fixpoint toLowerCase (s : string) : string :=
  match s with
  | EmptyString => EmptyString
  | String c s' => String (lower_char c) (toLowerCase s')
  end.

Fixpoint trimStart (s : string) : string :=
  match s with
  | String c s' => if is_space c then trimStart s' else s
  | EmptyString => EmptyString
  end.

Fixpoint trimEnd (s : string) : string :=
  match s with
  | EmptyString => EmptyString
  | String c s' =>
      match trimEnd s' with
      | EmptyString => if is_space c then EmptyString else String c EmptyString
      | t => String c t
      end
  end.

Definition trim (s : string) : string := trimEnd (trimStart s).

(** [s.startsWith(p)] *)
Fixpoint startsWith (p s : string) : bool :=
  match p, s with
  | EmptyString, _ => true
  | String a p', String b s' => if ascii_dec a b then startsWith p' s' else false
  | String _ _, EmptyString => false
  end.

(** [s.slice(n)] for [n] within the string. *)
Fixpoint drop (n : nat) (s : string) : string :=
  match n, s with
  | O, _ => s
  | S n', String _ s' => drop n' s'
  | S _, EmptyString => EmptyString
  end.

(** [s.slice(0, -1)] when [s] ends with [c], [s] itself otherwise. *)
Fixpoint dropLast (c : ascii) (s : string) : string :=
  match s with
  | EmptyString => EmptyString
  | String a EmptyString => if ascii_dec a c then EmptyString else s
  | String a s' => String a (dropLast c s')
  end.

(** [s.split(sep)] for a one-character separator: never empty. *)
Fixpoint split (sep : ascii) (s : string) : list string :=
  match s with
  | EmptyString => [EmptyString]
  | String c s' =>
      if ascii_dec c sep then EmptyString :: split sep s'
      else match split sep s' with
           | x :: r => String c x :: r
           | [] => [String c EmptyString]
           end
  end.

(** [l.join(sep)] *)
Fixpoint join (sep : string) (l : list string) : string :=
  match l with
  | [] => EmptyString
  | [x] => x
  | x :: r => x ++ sep ++ join sep r
  end.

(** Truthiness of an optional string property. *)
Definition truthy (o : option string) : bool :=
  match o with
  | Some (String _ _) => true
  | _ => false
  end.


End Js.

(** ** URL helpers *)

(** Modelled from the spec: [cleanUrl] of [utils/clean-url.js], which the
    manager imports; the specification describes its result as the URL
    normalized with its trailing slash stripped.  Surrounding white space is
    trimmed and one trailing slash is removed. *)
Definition cleanUrl (url : string) : string :=
  Js.dropLast "/"%char (Js.trim url).

(** One match of [(?:\/|#|\?|$)]: what may follow the services segment. *)
Definition segment_end (s : string) : bool :=
  match s with
  | EmptyString => true
  | String c _ =>
      if ascii_dec c "/" then true
      else if ascii_dec c "#" then true
      else if ascii_dec c "?" then true
      else false
  end.

(** Does [/\/rest(\/admin)?\/services(?:\/|#|\?|$)/] match at the head of
    [s]?  The optional group is tried first; when it fails the plain
    segment is tried at the same place. *)
Definition services_here (s : string) : bool :=
  (Js.startsWith "/rest/admin/services" s
     && segment_end (Js.drop 20 s))
  || (Js.startsWith "/rest/services" s
        && segment_end (Js.drop 14 s)).

(** The first element of [s.split(/\/rest(\/admin)?\/services(?:\/|#|\?|$)/)]:
    the text before the leftmost match, the whole string without one. *)
Fixpoint before_services (s : string) : string :=
  if services_here s then EmptyString
  else match s with
       | EmptyString => EmptyString
       | String c s' => String c (before_services s')
       end.

(** The greedy [(.+)]: the longest run free of line terminators. *)
Fixpoint dot_plus (s : string) : string :=
  match s with
  | EmptyString => EmptyString
  | String c s' =>
      if Js.is_line_terminator c then EmptyString else String c (dot_plus s')
  end.

(** [/(https?:\/\/)(.+)/] tried at the head of [s]: the two groups. *)
Definition protocol_here (s : string) : option (string * string) :=
  let try (p : string) :=
    if Js.startsWith p s then
      match dot_plus (Js.drop (String.length p) s) with
      | EmptyString => None
      | rest => Some (p, rest)
      end
    else None in
  match try "https://" with
  | Some r => Some r
  | None => try "http://"
  end.

(** [root.match(/(https?:\/\/)(.+)/)]: the leftmost match, [None] for
    [null]. *)
Fixpoint match_protocol (s : string) : option (string * string) :=
  match protocol_here s with
  | Some r => Some r
  | None =>
      match s with
      | EmptyString => None
      | String _ s' => match_protocol s'
      end
  end.

(** [getServerRootUrl(url)]; [None] is the [TypeError] raised when the
    array pattern destructures the [null] of a failed match. *)
Definition getServerRootUrl (url : string) : option string :=
  let root := before_services (cleanUrl url) in
  match match_protocol root with
  | None => None
  | Some (protocol, domainAndPath) =>
      match Js.split "/"%char domainAndPath with
      | domain :: path =>
          Some (protocol ++ Js.toLowerCase domain ++ "/" ++ Js.join "/" path)%string
      | [] => None
      end
  end.

(** ** Data model *)

(** The [credentials] option of [fetch] chosen by [getDomainCredentials]. *)
Inductive Credentials := include | same_origin.

(** [ArcGISTokenRequestErrorCodes], with the codes the manager raises. *)
Inductive ErrorCode :=
| TOKEN_REFRESH_FAILED
| GENERATE_TOKEN_FOR_SERVER_FAILED
| REFRESH_TOKEN_EXCHANGE_FAILED
| NOT_FEDERATED
| UNKNOWN_ERROR_CODE.

(** What a promise is rejected with.  [response], [url] and [options] of an
    error are carried along uninterpreted. *)
Inductive Error :=
| ArcGISTokenRequestError
    (message : string) (code : ErrorCode) (response url options : option string)
| ArcGISRequestError (message : string) (response url options : option string)
| TypeError (message : string).

Definition err_message (e : Error) : string :=
  match e with
  | ArcGISTokenRequestError m _ _ _ _ => m
  | ArcGISRequestError m _ _ _ => m
  | TypeError m => m
  end.

Definition err_response (e : Error) : option string :=
  match e with
  | ArcGISTokenRequestError _ _ r _ _ => r
  | ArcGISRequestError _ r _ _ => r
  | TypeError _ => None
  end.

Definition err_url (e : Error) : option string :=
  match e with
  | ArcGISTokenRequestError _ _ _ u _ => u
  | ArcGISRequestError _ _ u _ => u
  | TypeError _ => None
  end.

Definition err_options (e : Error) : option string :=
  match e with
  | ArcGISTokenRequestError _ _ _ _ o => o
  | ArcGISRequestError _ _ _ o => o
  | TypeError _ => None
  end.

Definition err_code (e : Error) : option ErrorCode :=
  match e with
  | ArcGISTokenRequestError _ c _ _ _ => Some c
  | _ => None
  end.

(** [new ArcGISTokenRequestError(e.message, code, e.response, e.url,
    e.options)]: how every [.catch] of the manager re-wraps a failure. *)
Definition wrap_error (code : ErrorCode) (e : Error) : Error :=
  ArcGISTokenRequestError
    (err_message e) code (err_response e) (err_url e) (err_options e).

Inductive Result (A : Type) :=
| Ok (a : A)
| Err (e : Error).
Arguments Ok {A} a.
Arguments Err {A} e.

(** A value of a request parameter. *)
Inductive Param :=
| PText (s : option string)
| PNumber (n : Z).

(** The [requestOptions] a caller passes through: its own [params], which
    [Object.assign] lets override the manager's, and the rest, opaque. *)
Record RequestOptions := {
  ro_params : option (list (string * Param));
  ro_rest : string
}.

Inductive Transport := via_request | via_fetchToken.

(** One call of the transport, as the transport sees it. *)
Record Request := {
  rq_via : Transport;
  rq_url : string;
  rq_httpMethod : option string;
  rq_params : option (list (string * Param));
  rq_credentials : option Credentials;
  rq_authentication : bool;  (* [authentication: this] *)
  rq_options : option RequestOptions
}.

Record AuthInfo := { tokenServicesUrl : string }.

(** A parsed reply: the properties the manager reads off a response.  A
    property that the package's interfaces declare mandatory is always there
    ([token], [expires]); the optional ones are [option]s. *)
Record Reply := {
  owningSystemUrl : option string;
  authInfo : option AuthInfo;
  rp_token : string;
  rp_expires : Z;
  rp_refreshToken : option string;
  rp_refreshTokenExpires : option Z;
  authorizedCrossOriginDomains : option (list string)
}.

(** A value of [federatedServers]: [{ token, expires }]. *)
Record ServerToken := {
  st_token : option string;
  st_expires : option Z
}.

(** A value of [_pendingTokenRequests]: a promise, or the [null] that
    [getFreshToken] leaves behind. *)
Inductive Slot :=
| SlotPromise (p : nat)
| SlotNull.

(** [_pendingPortalRequest] when it is set: the promise of [getPortal],
    waiting for the reply to request [id] or rejected. *)
Inductive PortalPromise :=
| PortalPending (id : nat)
| PortalRejected (e : Error).

(** The cached [_user] snapshot; only its [username] is read here. *)
Record User := { u_username : option string }.

(** The state of an [ArcGISIdentityManager]. *)
Record Manager := {
  clientId : option string;
  _refreshToken : option string;
  _refreshTokenExpires : option Z;
  _username : option string;
  password : option string;
  _token : option string;
  _tokenExpires : option Z;
  portal : string;
  ssl : option bool;
  provider : string;
  tokenDuration : Z;
  redirectUri : option string;
  server : option string;
  federatedServers : gmap string ServerToken;
  trustedDomains : list string;
  _pendingTokenRequests : gmap string Slot;
  _user : option User;
  _portalInfo : option Reply;
  _pendingPortalRequest : option PortalPromise
}.

(** The constructor's [options] ([IArcGISIdentityManagerOptions]). *)
Record Options := {
  o_clientId : option string;
  o_refreshToken : option string;
  o_refreshTokenExpires : option Z;
  o_username : option string;
  o_password : option string;
  o_token : option string;
  o_tokenExpires : option Z;
  o_portal : option string;
  o_ssl : option bool;
  o_provider : option string;
  o_tokenDuration : option Z;
  o_redirectUri : option string;
  o_server : option string
}.

(** *** Getters *)

Definition token (m : Manager) : option string := _token m.
Definition tokenExpires (m : Manager) : option Z := _tokenExpires m.
Definition refreshToken (m : Manager) : option string := _refreshToken m.
Definition refreshTokenExpires (m : Manager) : option Z := _refreshTokenExpires m.

(** [get username()]: the stored name, else the one of the cached user,
    else [undefined]. *)
Definition username (m : Manager) : option string :=
  if Js.truthy (_username m) then _username m
  else match _user m with
       | Some u => if Js.truthy (u_username u) then u_username u else None
       | None => None
       end.

(** *** Field updates *)

Definition set_token (t : option string) (e : option Z) (m : Manager) : Manager :=
  {| clientId := clientId m; _refreshToken := _refreshToken m;
     _refreshTokenExpires := _refreshTokenExpires m; _username := _username m;
     password := password m; _token := t; _tokenExpires := e;
     portal := portal m; ssl := ssl m; provider := provider m;
     tokenDuration := tokenDuration m; redirectUri := redirectUri m;
     server := server m; federatedServers := federatedServers m;
     trustedDomains := trustedDomains m;
     _pendingTokenRequests := _pendingTokenRequests m; _user := _user m;
     _portalInfo := _portalInfo m;
     _pendingPortalRequest := _pendingPortalRequest m |}.

Definition set_refreshToken (t : option string) (e : option Z) (m : Manager) : Manager :=
  {| clientId := clientId m; _refreshToken := t;
     _refreshTokenExpires := e; _username := _username m;
     password := password m; _token := _token m; _tokenExpires := _tokenExpires m;
     portal := portal m; ssl := ssl m; provider := provider m;
     tokenDuration := tokenDuration m; redirectUri := redirectUri m;
     server := server m; federatedServers := federatedServers m;
     trustedDomains := trustedDomains m;
     _pendingTokenRequests := _pendingTokenRequests m; _user := _user m;
     _portalInfo := _portalInfo m;
     _pendingPortalRequest := _pendingPortalRequest m |}.

Definition set_user (u : option User) (m : Manager) : Manager :=
  {| clientId := clientId m; _refreshToken := _refreshToken m;
     _refreshTokenExpires := _refreshTokenExpires m; _username := _username m;
     password := password m; _token := _token m; _tokenExpires := _tokenExpires m;
     portal := portal m; ssl := ssl m; provider := provider m;
     tokenDuration := tokenDuration m; redirectUri := redirectUri m;
     server := server m; federatedServers := federatedServers m;
     trustedDomains := trustedDomains m;
     _pendingTokenRequests := _pendingTokenRequests m; _user := u;
     _portalInfo := _portalInfo m;
     _pendingPortalRequest := _pendingPortalRequest m |}.

Definition set_federatedServers (f : gmap string ServerToken) (m : Manager) : Manager :=
  {| clientId := clientId m; _refreshToken := _refreshToken m;
     _refreshTokenExpires := _refreshTokenExpires m; _username := _username m;
     password := password m; _token := _token m; _tokenExpires := _tokenExpires m;
     portal := portal m; ssl := ssl m; provider := provider m;
     tokenDuration := tokenDuration m; redirectUri := redirectUri m;
     server := server m; federatedServers := f;
     trustedDomains := trustedDomains m;
     _pendingTokenRequests := _pendingTokenRequests m; _user := _user m;
     _portalInfo := _portalInfo m;
     _pendingPortalRequest := _pendingPortalRequest m |}.

Definition set_trustedDomains (d : list string) (m : Manager) : Manager :=
  {| clientId := clientId m; _refreshToken := _refreshToken m;
     _refreshTokenExpires := _refreshTokenExpires m; _username := _username m;
     password := password m; _token := _token m; _tokenExpires := _tokenExpires m;
     portal := portal m; ssl := ssl m; provider := provider m;
     tokenDuration := tokenDuration m; redirectUri := redirectUri m;
     server := server m; federatedServers := federatedServers m;
     trustedDomains := d;
     _pendingTokenRequests := _pendingTokenRequests m; _user := _user m;
     _portalInfo := _portalInfo m;
     _pendingPortalRequest := _pendingPortalRequest m |}.

Definition set_pendingTokenRequests (p : gmap string Slot) (m : Manager) : Manager :=
  {| clientId := clientId m; _refreshToken := _refreshToken m;
     _refreshTokenExpires := _refreshTokenExpires m; _username := _username m;
     password := password m; _token := _token m; _tokenExpires := _tokenExpires m;
     portal := portal m; ssl := ssl m; provider := provider m;
     tokenDuration := tokenDuration m; redirectUri := redirectUri m;
     server := server m; federatedServers := federatedServers m;
     trustedDomains := trustedDomains m;
     _pendingTokenRequests := p; _user := _user m;
     _portalInfo := _portalInfo m;
     _pendingPortalRequest := _pendingPortalRequest m |}.

Definition set_portalInfo (i : option Reply) (p : option PortalPromise) (m : Manager) : Manager :=
  {| clientId := clientId m; _refreshToken := _refreshToken m;
     _refreshTokenExpires := _refreshTokenExpires m; _username := _username m;
     password := password m; _token := _token m; _tokenExpires := _tokenExpires m;
     portal := portal m; ssl := ssl m; provider := provider m;
     tokenDuration := tokenDuration m; redirectUri := redirectUri m;
     server := server m; federatedServers := federatedServers m;
     trustedDomains := trustedDomains m;
     _pendingTokenRequests := _pendingTokenRequests m; _user := _user m;
     _portalInfo := i;
     _pendingPortalRequest := p |}.

(** ** Promise chains *)

(** What the model records besides transport requests: the invocations of
    [refreshCredentials]. *)
Inductive Call := refreshCredentials_called.

(** A promise chain as far as it still has to run: a resumption over the
    manager's state ([this]) and the clock, suspended at transport requests.
    - [Ret] and [Throw]: fulfilled and rejected;
    - [Read]: the callback reads [this] and [Date.now()] when it runs;
    - [Modify]: it assigns to properties of [this];
    - [Send]: it calls the transport and the chain continues with the
      reply or the failure;
    - [GetPortal]: it calls [this.getPortal()] and waits for that promise;
    - [Trace]: it records a call. *)
Inductive Async (A : Type) : Type :=
| Ret (a : A)
| Throw (e : Error)
| Read (k : Manager -> Z -> Async A)
| Modify (f : Manager -> Manager) (k : Async A)
| Send (r : Request) (k : Result Reply -> Async A)
| GetPortal (k : Result Reply -> Async A)
| Trace (c : Call) (k : Async A).
Arguments Ret {A} a.
Arguments Throw {A} e.
Arguments Read {A} k.
Arguments Modify {A} f k.
Arguments Send {A} r k.
Arguments GetPortal {A} k.
Arguments Trace {A} c k.

(** [p.then(f)] *)
Fixpoint bind {A B : Type} (p : Async A) (f : A -> Async B) : Async B :=
  match p with
  | Ret a => f a
  | Throw e => Throw e
  | Read k => Read (fun m t => bind (k m t) f)
  | Modify g k => Modify g (bind k f)
  | Send r k => Send r (fun x => bind (k x) f)
  | GetPortal k => GetPortal (fun x => bind (k x) f)
  | Trace c k => Trace c (bind k f)
  end.

(** [p.catch(h)] *)
Fixpoint catch {A : Type} (p : Async A) (h : Error -> Async A) : Async A :=
  match p with
  | Ret a => Ret a
  | Throw e => h e
  | Read k => Read (fun m t => catch (k m t) h)
  | Modify g k => Modify g (catch k h)
  | Send r k => Send r (fun x => catch (k x) h)
  | GetPortal k => GetPortal (fun x => catch (k x) h)
  | Trace c k => Trace c (catch k h)
  end.

Declare Scope async_scope.
Delimit Scope async_scope with async.
Bind Scope async_scope with Async.
Notation "x <- p ;; q" := (bind p (fun x => q))
  (at level 100, p at next level, right associativity) : async_scope.
Notation "p ;;; q" := (bind p (fun _ => q))
  (at level 100, right associativity) : async_scope.

(** The promise of a settled transport call. *)
Definition settle {A : Type} (x : Result A) : Async A :=
  match x with
  | Ok a => Ret a
  | Err e => Throw e
  end.

(** [request(url, options)] and [fetchToken(url, options)] *)
Definition request (r : Request) : Async Reply := Send r settle.

(** [this.getPortal()] awaited *)
Definition getPortal : Async Reply := GetPortal settle.

Definition this : Async Manager := Read (fun m _ => Ret m).
Definition modify (f : Manager -> Manager) : Async unit := Modify f (Ret tt).

(** [Object.assign({ params }, requestOptions)]: the caller's [params], when
    it passes some, replace the manager's. *)
Definition assign_params
    (params : list (string * Param)) (ro : option RequestOptions)
  : option (list (string * Param)) :=
  match ro with
  | Some o =>
      match ro_params o with
      | Some p => Some p
      | None => Some params
      end
  | None => Some params
  end.

(** What a token promise resolves to: [this.token], [response.token] or the
    [token] of a cached entry. *)
Definition Token := option string.

(** ** The manager's synchronous methods *)

Definition default_portal : string := "https://www.arcgis.com/sharing/rest".

(** [new ArcGISIdentityManager(options)]; [None] when [getServerRootUrl]
    raises on [options.server]. *)
Definition new_manager (o : Options) : option Manager :=
  let base :=
    {| clientId := o_clientId o;
       _refreshToken := o_refreshToken o;
       _refreshTokenExpires := o_refreshTokenExpires o;
       _username := o_username o;
       password := o_password o;
       _token := o_token o;
       _tokenExpires := o_tokenExpires o;
       portal := match o_portal o with
                 | Some (String _ _ as p) => cleanUrl p
                 | _ => default_portal
                 end;
       ssl := o_ssl o;
       provider := match o_provider o with
                   | Some (String _ _ as p) => p
                   | _ => "arcgis"
                   end;
       tokenDuration := match o_tokenDuration o with
                        | Some d => if d =? 0 then 20160 else d
                        | None => 20160
                        end;
       redirectUri := o_redirectUri o;
       server := o_server o;
       federatedServers := ∅;
       trustedDomains := [];
       _pendingTokenRequests := ∅;
       _user := None;
       _portalInfo := None;
       _pendingPortalRequest := None |} in
  match o_server o with
  | Some (String _ _ as s) =>
      (* if a non-federated server was passed explicitly, it should be trusted *)
      match getServerRootUrl s with
      | Some root =>
          Some (set_federatedServers
                  {[ root := {| st_token := o_token o;
                                st_expires := o_tokenExpires o |} ]} base)
      | None => None
      end
  | _ => Some base
  end.

(** The object that [toJSON()] builds and [JSON.parse] gives back.  The
    JSON text in between is identified with the object it denotes: a
    property that is [undefined] is left out, a [Date] is written as the
    timestamp of its time value. *)
Record Serialized := {
  s_clientId : option string;
  s_refreshToken : option string;
  s_refreshTokenExpires : option Z;
  s_username : option string;
  s_password : option string;
  s_token : option string;
  s_tokenExpires : option Z;
  s_portal : option string;
  s_ssl : option bool;
  s_tokenDuration : option Z;
  s_redirectUri : option string;
  s_server : option string
}.

(** [toJSON()]; a [Date] is truthy, so [this.tokenExpires || undefined] is
    [this.tokenExpires]. *)
Definition toJSON (m : Manager) : Serialized :=
  {| s_clientId := clientId m;
     s_refreshToken := refreshToken m;
     s_refreshTokenExpires := refreshTokenExpires m;
     s_username := username m;
     s_password := password m;
     s_token := token m;
     s_tokenExpires := tokenExpires m;
     s_portal := Some (portal m);
     s_ssl := ssl m;
     s_tokenDuration := Some (tokenDuration m);
     s_redirectUri := redirectUri m;
     s_server := server m |}.

(** [serialize()], that is [JSON.stringify(this)]. *)
Definition serialize (m : Manager) : Serialized := toJSON m.

(** [ArcGISIdentityManager.deserialize(str)]: the parsed record handed to the
    constructor, a timestamp that is there turned back into a [Date]. *)
Definition deserialize (str : Serialized) : option Manager :=
  let options := str in
  new_manager
    {| o_clientId := s_clientId options;
       o_refreshToken := s_refreshToken options;
       o_refreshTokenExpires := s_refreshTokenExpires options;
       o_username := s_username options;
       o_password := s_password options;
       o_token := s_token options;
       o_tokenExpires := s_tokenExpires options;
       o_portal := s_portal options;
       o_ssl := s_ssl options;
       o_provider := None;
       o_tokenDuration := s_tokenDuration options;
       o_redirectUri := s_redirectUri options;
       o_server := s_server options |}.

(** [updateToken(newToken, newTokenExpiration)]: the manager it returns is
    [this] after the two assignments. *)
Definition updateToken
    (newToken : option string) (newTokenExpiration : option Z) (m : Manager)
  : Manager :=
  set_token newToken newTokenExpiration m.

(** [getDomainCredentials(url)] *)
Definition getDomainCredentials (m : Manager) (url : string) : Credentials :=
  match trustedDomains m with
  | [] => same_origin
  | domains =>
      if existsb (fun domainWithProtocol => Js.startsWith domainWithProtocol url)
                 domains
      then include else same_origin
  end.

(** The [authorizedCrossOriginDomains] of the portal as [trustedDomains]
    keeps them: [http://] entries dropped, the others given [https://]. *)
Definition normalize_domains (domains : list string) : list string :=
  map (fun d => if Js.startsWith "https://" d then d else "https://" ++ d)%string
      (filter (fun d => Js.startsWith "http://" d = false) domains).

(** [existingToken && existingToken.expires &&
    existingToken.expires.getTime() > Date.now()] *)
Definition unexpired (existingToken : option ServerToken) (now : Z) : bool :=
  match existingToken with
  | Some t => match st_expires t with
              | Some e => now <? e
              | None => false
              end
  | None => false
  end.

(** The promise in a slot of [_pendingTokenRequests], when the slot is
    truthy. *)
Definition pending_promise (s : option Slot) : option nat :=
  match s with
  | Some (SlotPromise p) => Some p
  | _ => None
  end.

(** ** The event loop *)

(** What a promise of the manager resolves to: a token, or [this] for
  [refreshCredentials]. *)
Inductive Value :=
| VToken (t : Token)
| VThis.


(** What a suspended chain waits for: the reply to a transport request, or
    the promise of [getPortal]. *)
Inductive Wait :=
| OnRequest (id : nat)
| OnPortal.

Definition wait_eqb (a b : Wait) : bool :=
  match a, b with
  | OnRequest i, OnRequest j => Nat.eqb i j
  | OnPortal, OnPortal => true
  | _, _ => false
  end.

(** A chain after it ran as far as it could. *)
Inductive Paused (A : Type) :=
| Done (r : Result A)
| Waiting (on : Wait) (k : Result Reply -> Async A).
Arguments Done {A} r.
Arguments Waiting {A} on k.

(** A promise that the manager handed out.  [p_key] remembers the key of
    [_pendingTokenRequests] under which the manager stored it, if it did. *)
Record Promise := {
  p_key : option string;
  p_state : Paused Value
}.

(** The manager in its environment: its state, the clock, the promises it
    handed out (a promise is named by its position), the requests it made
    of the transport (a request is named by its position) and the calls
    recorded. *)
Record World := {
  mgr : Manager;
  now : Z;
  promises : list Promise;
  requests : list Request;
  calls : list Call
}.

Definition with_mgr (m : Manager) (w : World) : World :=
  {| mgr := m; now := now w; promises := promises w;
     requests := requests w; calls := calls w |}.

Definition with_now (t : Z) (w : World) : World :=
  {| mgr := mgr w; now := t; promises := promises w;
     requests := requests w; calls := calls w |}.

Definition with_promises (l : list Promise) (w : World) : World :=
  {| mgr := mgr w; now := now w; promises := l;
     requests := requests w; calls := calls w |}.

Definition with_requests (l : list Request) (w : World) : World :=
  {| mgr := mgr w; now := now w; promises := promises w;
     requests := l; calls := calls w |}.

Definition with_calls (l : list Call) (w : World) : World :=
  {| mgr := mgr w; now := now w; promises := promises w;
     requests := requests w; calls := l |}.

(** The request of [getPortal()] as [fetchAuthorizedDomains] calls it. *)
Definition portal_self_request (m : Manager) : Request :=
  {| rq_via := via_request; rq_url := portal m ++ "/portals/self";
     rq_httpMethod := Some "GET"; rq_params := None;
     rq_credentials := None; rq_authentication := true;
     rq_options := None |}.

(** Run a chain until it settles or has to wait.  [GetPortal] is
    [getPortal()]: the promise already there is awaited, a cached
    [_portalInfo] is resolved at once, otherwise the request is made and
    its promise stored in [_pendingPortalRequest]. *)
Fixpoint run {A : Type} (p : Async A) (w : World) : World * Paused A :=
  match p with
  | Ret a => (w, Done (Ok a))
  | Throw e => (w, Done (Err e))
  | Read k => run (k (mgr w) (now w)) w
  | Modify f k => run k (with_mgr (f (mgr w)) w)
  | Send r k =>
      (with_requests (requests w ++ [r]) w,
       Waiting (OnRequest (List.length (requests w))) k)
  | GetPortal k =>
      match _pendingPortalRequest (mgr w) with
      | Some (PortalRejected e) => run (k (Err e)) w
      | Some (PortalPending _) => (w, Waiting OnPortal k)
      | None =>
          match _portalInfo (mgr w) with
          | Some info => run (k (Ok info)) w
          | None =>
              (with_requests (requests w ++ [portal_self_request (mgr w)])
                 (with_mgr
                    (set_portalInfo None
                       (Some (PortalPending (List.length (requests w)))) (mgr w))
                    w),
               Waiting OnPortal k)
          end
      end
  | Trace c k => run k (with_calls (calls w ++ [c]) w)
  end.

(** ** The manager's asynchronous methods *)

Section Methods.

(** [isFederated(owningSystemUrl, portalUrl)] of [federation-utils.js],
    the federation check that the manager imports. *)
Variable isFederated : string -> string -> bool.

(** The [referer] sent with a user name and password: the origin of the
    window, [NODEJS_DEFAULT_REFERER_HEADER] without one. *)
Variable referer : string.

Local Open Scope async_scope.

Definition plain_request (url : string) : Request :=
  {| rq_via := via_request; rq_url := url; rq_httpMethod := None;
     rq_params := None; rq_credentials := None;
     rq_authentication := false; rq_options := None |}.

(** [generateTokenForServer(tokenServicesUrl, serverUrl)] *)
Definition generateTokenForServer
    (tokenServicesUrl serverUrl : string) : Async ServerToken :=
  Read (fun m _ =>
    catch
      (response <-
         request
           {| rq_via := via_request;
              rq_url := tokenServicesUrl;
              rq_httpMethod := None;
              rq_params :=
                Some [("token", PText (token m));
                      ("serverUrl", PText (Some serverUrl));
                      ("expiration", PNumber (tokenDuration m))];
              rq_credentials := None;
              rq_authentication := false;
              rq_options := None |};;
       Ret {| st_token := Some (rp_token response);
              st_expires := Some (rp_expires response - 1000 * 60 * 5) |})
      (fun e => Throw (wrap_error GENERATE_TOKEN_FOR_SERVER_FAILED e))).

(** [exchangeRefreshToken(requestOptions)] *)
Definition exchangeRefreshToken (requestOptions : option RequestOptions)
  : Async unit :=
  Read (fun m _ =>
    catch
      (response <-
         request
           {| rq_via := via_fetchToken;
              rq_url := portal m ++ "/oauth2/token";
              rq_httpMethod := None;
              rq_params :=
                assign_params
                  [("client_id", PText (clientId m));
                   ("refresh_token", PText (refreshToken m));
                   ("redirect_uri", PText (redirectUri m));
                   ("grant_type", PText (Some "exchange_refresh_token"))]
                  requestOptions;
              rq_credentials := None;
              rq_authentication := false;
              rq_options := requestOptions |};;
       modify (fun m =>
                 set_refreshToken (rp_refreshToken response)
                                  (rp_refreshTokenExpires response)
                   (set_token (Some (rp_token response))
                              (Some (rp_expires response)) m)))
      (fun e => Throw (wrap_error REFRESH_TOKEN_EXCHANGE_FAILED e))).

Definition ONE_DAY_IN_MILLISECONDS : Z := 1000 * 60 * 60 * 24.

(** [this.refreshToken && this.refreshTokenExpires &&
    this.refreshTokenExpires.getTime() - ONE_DAY_IN_MILLISECONDS <
    Date.now()] *)
Definition refreshToken_expires_soon (m : Manager) (now : Z) : bool :=
  Js.truthy (refreshToken m)
  && match refreshTokenExpires m with
     | Some e => e - ONE_DAY_IN_MILLISECONDS <? now
     | None => false
     end.

(** [refreshWithRefreshToken(requestOptions)] *)
Definition refreshWithRefreshToken (requestOptions : option RequestOptions)
  : Async unit :=
  Read (fun m now =>
    (* If our refresh token expires sometime in the next 24 hours then
       refresh the refresh token *)
    if refreshToken_expires_soon m now then
      exchangeRefreshToken requestOptions
    else
      catch
        (response <-
           request
             {| rq_via := via_fetchToken;
                rq_url := portal m ++ "/oauth2/token";
                rq_httpMethod := None;
                rq_params :=
                  assign_params
                    [("client_id", PText (clientId m));
                     ("refresh_token", PText (refreshToken m));
                     ("grant_type", PText (Some "refresh_token"))]
                    requestOptions;
                rq_credentials := None;
                rq_authentication := false;
                rq_options := requestOptions |};;
         modify (updateToken (Some (rp_token response))
                             (Some (rp_expires response))))
        (fun e => Throw (wrap_error TOKEN_REFRESH_FAILED e))).

(** [refreshWithUsernameAndPassword(requestOptions)].  The root of a
    [server] that [getServerRootUrl] refuses raises before the chain and
    its [.catch] exist. *)
Definition refreshWithUsernameAndPassword
    (requestOptions : option RequestOptions) : Async unit :=
  Read (fun m _ =>
    let params :=
      [("username", PText (username m));
       ("password", PText (password m));
       ("expiration", PNumber (tokenDuration m));
       ("client", PText (Some "referer"));
       ("referer", PText (Some referer))] in
    let token_request (url : string) :=
      {| rq_via := via_request; rq_url := url; rq_httpMethod := None;
         rq_params := assign_params params requestOptions;
         rq_credentials := None; rq_authentication := false;
         rq_options := requestOptions |} in
    let finish (p : Async Reply) : Async unit :=
      catch
        (response <- p;;
         modify (updateToken (Some (rp_token response))
                             (Some (rp_expires response))))
        (fun e => Throw (wrap_error TOKEN_REFRESH_FAILED e)) in
    match server m with
    | Some (String _ _ as s) =>
        match getServerRootUrl s with
        | None => Throw (TypeError "root.match(...) is not iterable")
        | Some root =>
            finish
              (response <- request (plain_request (root ++ "/rest/info"));;
               match authInfo response with
               | Some info => request (token_request (tokenServicesUrl info))
               | None =>
                   Throw (TypeError "response.authInfo is undefined")
               end)
        end
    | _ => finish (request (token_request (portal m ++ "/generateToken")))
    end).

(** [refreshCredentials(requestOptions)] *)
Definition refreshCredentials (requestOptions : option RequestOptions)
  : Async unit :=
  Trace refreshCredentials_called
    ((* make sure subsequent calls to getUser() don't returned cached metadata *)
     Modify (set_user None)
       (Read (fun m _ =>
          if Js.truthy (username m) && Js.truthy (password m) then
            refreshWithUsernameAndPassword requestOptions
          else if Js.truthy (clientId m) && Js.truthy (refreshToken m) then
            refreshWithRefreshToken None
          else
            Throw (ArcGISTokenRequestError
                     "Unable to refresh token. No refresh token or password present."
                     TOKEN_REFRESH_FAILED None None None)))).

(** [fetchAuthorizedDomains()] *)
Definition fetchAuthorizedDomains : Async unit :=
  Read (fun m _ =>
    (* if this token is for a specific server or we don't have a portal
       don't get the portal info *)
    if Js.truthy (server m) || negb (Js.truthy (Some (portal m))) then Ret tt
    else
      portalInfo <- getPortal;;
      match authorizedCrossOriginDomains portalInfo with
      | Some ((_ :: _) as domains) =>
          modify (set_trustedDomains (normalize_domains domains))
      | _ => Ret tt
      end).


(** [this.token && this.tokenExpires.getTime() < Date.now()]; [None] is
    the [TypeError] of [getTime] on a [tokenExpires] that is
    [undefined]. *)
Definition token_expired (m : Manager) (now : Z) : option bool :=
  if Js.truthy (token m) then
    match tokenExpires m with
    | Some e => Some (e <? now)
    | None => None
    end
  else Some false.

Definition not_federated (message : string) : Error :=
  ArcGISTokenRequestError message NOT_FEDERATED None None None.

(** [serverInfo.authInfo.tokenServicesUrl] handed to
    [generateTokenForServer] *)
Definition generate_with (info : option AuthInfo) (root : string)
  : Async ServerToken :=
  match info with
  | Some i => generateTokenForServer (tokenServicesUrl i) root
  | None => Throw (TypeError "serverInfo.authInfo is undefined")
  end.

(** The request for [`${root}/rest/info`], with the credentials policy of
    [getDomainCredentials(url)]. *)
Definition server_info_request (m : Manager) (url root : string) : Request :=
  {| rq_via := via_request; rq_url := root ++ "/rest/info";
     rq_httpMethod := None; rq_params := None;
     rq_credentials := Some (getDomainCredentials m url);
     rq_authentication := false; rq_options := None |}.

(** The request for [`${serverInfo.owningSystemUrl}/sharing/rest/info`],
    made with the caller's [requestOptions]. *)
Definition owning_system_request
    (owning : string) (requestOptions : option RequestOptions) : Request :=
  {| rq_via := via_request; rq_url := owning ++ "/sharing/rest/info";
     rq_httpMethod := None;
     rq_params := match requestOptions with
                  | Some o => ro_params o
                  | None => None
                  end;
     rq_credentials := None; rq_authentication := false;
     rq_options := requestOptions |}.

(** The first callback on the reply of [`${root}/rest/info`]: where the
    token endpoint is.  Of the object it resolves to, the next callback
    reads [authInfo] only; that is what is passed on. *)
Definition on_serverInfo
    (url root : string) (requestOptions : option RequestOptions)
    (serverInfo : Reply) : Async (option AuthInfo) :=
  Read (fun m _ =>
    match owningSystemUrl serverInfo with
    | Some (String _ _ as owning) =>
        (* if this server is not owned by this portal bail out with an
           error since we know we wont be able to generate a token *)
        if negb (isFederated owning (portal m)) then
          Throw (not_federated
                   (url ++ " is not federated with " ++ portal m ++ "."))
        else
          (* if the server is federated, use the relevant token endpoint *)
          owner <- request (owning_system_request owning requestOptions);;
          Ret (authInfo owner)
    | _ =>
        match authInfo serverInfo, federatedServers m !! root with
        | Some i, Some _ =>
            (* a stand-alone instance of ArcGIS Server whose root is
               recognized: use its built in token endpoint *)
            Ret (Some i)
        | _, _ =>
            Throw (not_federated
                     (url ++ " is not federated with any portal and is not explicitly trusted."))
        end
    end).

(** The second callback: the token for the server. *)
Definition on_authInfo (root : string) (info : option AuthInfo)
  : Async ServerToken :=
  Read (fun m now =>
    (* an expired token cant be used to generate a new token so refresh
       our credentials before trying to generate a server token *)
    match token_expired m now with
    | None => Throw (TypeError "this.tokenExpires is undefined")
    | Some true =>
        if Js.truthy (server m) then
          (* authenticated to a single server: the new credentials are the
             credentials for this server *)
          refreshCredentials None;;;
          m <- this;;
          Ret {| st_token := token m; st_expires := tokenExpires m |}
        else
          refreshCredentials None;;;
          generate_with info root
    | Some false => generate_with info root
    end).

(** The last callback: the cache entry is written and the pending request
    deleted. *)
Definition on_serverToken (root : string) (response : ServerToken)
  : Async Value :=
  Modify
    (fun m =>
       set_pendingTokenRequests (delete root (_pendingTokenRequests m))
         (set_federatedServers (<[root := response]> (federatedServers m)) m))
    (Ret (VToken (st_token response))).

(** The chain that [getTokenForServer] stores in
    [_pendingTokenRequests[root]]. *)
Definition getTokenForServer_chain
    (url root : string) (requestOptions : option RequestOptions)
  : Async Value :=
  fetchAuthorizedDomains;;;
  m <- this;;
  serverInfo <- request (server_info_request m url root);;
  info <- on_serverInfo url root requestOptions serverInfo;;
  response <- on_authInfo root info;;
  on_serverToken root response.

(** The chain that [getFreshToken] stores in
    [_pendingTokenRequests[this.portal]]. *)
Definition getFreshToken_chain (requestOptions : option RequestOptions)
  : Async Value :=
  refreshCredentials requestOptions;;;
  Modify
    (fun m =>
       set_pendingTokenRequests
         (<[portal m := SlotNull]> (_pendingTokenRequests m)) m)
    (Read (fun m _ => Ret (VToken (token m)))).

(** ** The manager's entry points *)

(** A new promise for a chain.  The part of the chain up to its first wait
    runs in the call that makes it, and the caller stores the promise after
    that; no chain of the manager is resolved before a reply, so none
    clears its key before the caller has stored it. *)
Definition spawn (key : option string) (body : Async Value) (w : World)
  : nat * World :=
  let (w', state) := run body w in
  (List.length (promises w'),
   with_promises (promises w' ++ [{| p_key := key; p_state := state |}]) w').

(** [Promise.resolve(token)] *)
Definition resolved (t : Token) (w : World) : nat * World :=
  spawn None (Ret (VToken t)) w.

(** [this._pendingTokenRequests[key] = p] *)
Definition store_pending (key : string) (p : nat) (w : World) : World :=
  with_mgr
    (set_pendingTokenRequests
       (<[key := SlotPromise p]> (_pendingTokenRequests (mgr w))) (mgr w))
    w.

(** [getTokenForServer(url, requestOptions)]: the promise returned and the
    world after the call; [None] when [getServerRootUrl] raises. *)
Definition getTokenForServer
    (url : string) (requestOptions : option RequestOptions) (w : World)
  : option (nat * World) :=
  match getServerRootUrl url with
  | None => None
  | Some root =>
      let existingToken := federatedServers (mgr w) !! root in
      if unexpired existingToken (now w) then
        Some (resolved (existingToken ≫= st_token) w)
      else
        match pending_promise (_pendingTokenRequests (mgr w) !! root) with
        | Some p => Some (p, w)
        | None =>
            let (p, w') :=
              spawn (Some root)
                    (getTokenForServer_chain url root requestOptions) w in
            Some (p, store_pending root p w')
        end
  end.

(** [this.token && !this.tokenExpires], or [this.token &&
    this.tokenExpires && this.tokenExpires.getTime() > Date.now()] *)
Definition token_fresh (m : Manager) (now : Z) : bool :=
  Js.truthy (token m)
  && match tokenExpires m with
     | None => true
     | Some e => now <? e
     end.

(** [getFreshToken(requestOptions)] *)
Definition getFreshToken (requestOptions : option RequestOptions) (w : World)
  : nat * World :=
  if token_fresh (mgr w) (now w) then resolved (token (mgr w)) w
  else
    match pending_promise (_pendingTokenRequests (mgr w) !! portal (mgr w)) with
    | Some p => (p, w)
    | None =>
        let key := portal (mgr w) in
        let (p, w') := spawn (Some key) (getFreshToken_chain requestOptions) w in
        (p, store_pending key p w')
    end.

(** Resume promise [pid], suspended with [k], on [reply]. *)
Definition resume
    (pid : nat) (key : option string) (k : Result Reply -> Async Value)
    (reply : Result Reply) (w : World) : World :=
  let (w', state) := run (k reply) w in
  with_promises
    (<[pid := {| p_key := key; p_state := state |}]> (promises w')) w'.

(** Resume, in the order they were made, the promises that wait on [on]. *)
Fixpoint wake (on : Wait) (reply : Result Reply)
    (waiters : list (nat * Promise)) (w : World) : World :=
  match waiters with
  | [] => w
  | (pid, P) :: rest =>
      match p_state P with
      | Waiting on' k =>
          if wait_eqb on on'
          then wake on reply rest (resume pid (p_key P) k reply w)
          else wake on reply rest w
      | Done _ => wake on reply rest w
      end
  end.

Definition numbered {A : Type} (l : list A) : list (nat * A) :=
  imap (fun i x => (i, x)) l.

(** The transport settles request [id].  When it is the request of
    [getPortal], the callback of [getPortal] runs first: it caches the
    reply and clears [_pendingPortalRequest]; a failure leaves the rejected
    promise there. *)
Definition respond (id : nat) (reply : Result Reply) (w : World) : World :=
  match _pendingPortalRequest (mgr w) with
  | Some (PortalPending id') =>
      if Nat.eqb id id' then
        let m := mgr w in
        let m' :=
          match reply with
          | Ok info => set_portalInfo (Some info) None m
          | Err e => set_portalInfo (_portalInfo m) (Some (PortalRejected e)) m
          end in
        wake OnPortal reply (numbered (promises w)) (with_mgr m' w)
      else wake (OnRequest id) reply (numbered (promises w)) w
  | _ => wake (OnRequest id) reply (numbered (promises w)) w
  end.

(** What happens to a manager. *)
Inductive Event :=
| CallGetTokenForServer (url : string) (requestOptions : option RequestOptions)
| CallGetFreshToken (requestOptions : option RequestOptions)
| CallRefreshCredentials (requestOptions : option RequestOptions)
| CallUpdateToken (newToken : option string) (newTokenExpiration : option Z)
| Respond (id : nat) (reply : Result Reply)
| Elapse (ms : N).

Definition step (e : Event) (w : World) : World :=
  match e with
  | CallGetTokenForServer url ro =>
      match getTokenForServer url ro w with
      | Some (_, w') => w'
      | None => w
      end
  | CallGetFreshToken ro => snd (getFreshToken ro w)
  | CallRefreshCredentials ro =>
      snd (spawn None (refreshCredentials ro;;; Ret VThis) w)
  | CallUpdateToken t e =>
      with_mgr (updateToken t e (mgr w)) w
  | Respond id reply => respond id reply w
  | Elapse ms => with_now (now w + Z.of_N ms) w
  end.

Definition steps (es : list Event) (w : World) : World :=
  fold_left (fun w e => step e w) es w.

(** A manager fresh from its constructor, at time [t]. *)
Definition start (m : Manager) (t : Z) : World :=
  {| mgr := m; now := t; promises := []; requests := []; calls := [] |}.

(** ** The server root as the specification words it *)

(** Lower-case up to the first slash: the host component. *)
Fixpoint spec_lower_host_part (s : string) : string :=
  match s with
  | EmptyString => EmptyString
  | String c s' =>
      if ascii_dec c "/" then s
      else String (Js.lower_char c) (spec_lower_host_part s')
  end.

(** Lower-case only the host component, the one after [://]. *)
Fixpoint spec_lower_host (s : string) : string :=
  if Js.startsWith "://" s then
    ("://" ++ spec_lower_host_part (Js.drop 3 s))%string
  else match s with
       | EmptyString => EmptyString
       | String c s' => String c (spec_lower_host s')
       end.

(** "Strip everything from [/rest/services] or [/rest/admin/services]
    onward, then lower-case only the host component." *)
Definition spec_server_root (url : string) : string :=
  spec_lower_host (before_services url).

(** ** What the properties are stated with *)

(** The rejection of [refreshCredentials] without credentials. *)
Definition no_credentials_error : Error :=
  ArcGISTokenRequestError
    "Unable to refresh token. No refresh token or password present."
    TOKEN_REFRESH_FAILED None None None.

(** The world once [refreshCredentials] has recorded its call and cleared
    the cached user. *)
Definition user_cleared (w : World) : World :=
  with_mgr (set_user None (mgr w))
    (with_calls (calls w ++ [refreshCredentials_called]) w).



(** A chain that has made request [r] and waits for its reply with [k]. *)
Definition sends {A : Type} (p : Async A) (w : World) (r : Request)
    (k : Result Reply → Async A) : Prop :=
  run p w
  = (with_requests (requests w ++ [r]) w,
     Waiting (OnRequest (List.length (requests w))) k).

(** The request of [generateTokenForServer]. *)
Definition generate_token_request
    (m : Manager) (tokenServicesUrl serverUrl : string) : Request :=
  {| rq_via := via_request;
     rq_url := tokenServicesUrl;
     rq_httpMethod := None;
     rq_params :=
       Some [("token", PText (token m));
             ("serverUrl", PText (Some serverUrl));
             ("expiration", PNumber (tokenDuration m))];
     rq_credentials := None;
     rq_authentication := false;
     rq_options := None |}.

(** *** Serialization *)





(** A manager for one stand-alone server, as [fromCredential] builds it. *)
Definition server_options : Options :=
  {| o_clientId := None; o_refreshToken := None;
     o_refreshTokenExpires := None; o_username := Some "casey";
     o_password := None;
     o_token := Some "token"; o_tokenExpires := Some 1700000000000;
     o_portal := None;
     o_ssl := Some true; o_provider := None; o_tokenDuration := None;
     o_redirectUri := None;
     o_server := Some "https://gis.example.com/arcgis" |}.

(** The manager that [new ArcGISIdentityManager(o)] builds; the empty one
    where the constructor raises. *)
Definition manager_of (o : Options) : Manager :=
  match new_manager o with
  | Some m => m
  | None =>
      {| clientId := None; _refreshToken := None;
         _refreshTokenExpires := None; _username := None; password := None;
         _token := None; _tokenExpires := None; portal := default_portal;
         ssl := None; provider := "arcgis"; tokenDuration := 20160;
         redirectUri := None; server := None; federatedServers := ∅;
         trustedDomains := []; _pendingTokenRequests := ∅; _user := None;
         _portalInfo := None; _pendingPortalRequest := None |}
  end.

(** ** Contracts of promise chains *)

(** How a run of a chain ends: the chain settles, or it is suspended. *)
Inductive Outcome (A : Type) :=
| Settles (r : Result A)
| Suspends.
Arguments Settles {A} r.
Arguments Suspends {A}.

(** A contract relates, for one run of a chain, the state of the manager
    when the run began, the reply that began it ([None] for the run in which
    the chain was made), the state of the manager and the calls recorded
    when the run ended, and how it ended. *)
Definition Contract (A : Type) : Type :=
  Manager → option (Result Reply) → Manager → list Call → Outcome A → Prop.

(** [holds Q I p m0 r0 m cs]: the chain [p], about to continue in state [m]
    a run that began in [m0] on [r0] and has recorded [cs], ends this run as
    [Q] says; and so does every later run, whatever the reply and the state
    [m1] it is resumed in, as long as [I m1]. *)
Fixpoint holds {A : Type} (Q : Contract A) (I : Manager → Prop) (p : Async A)
    (m0 : Manager) (r0 : option (Result Reply)) (m : Manager) (cs : list Call)
  : Prop :=
  let later (k : Result Reply → Async A) :=
    ∀ reply m1, I m1 → holds Q I (k reply) m1 (Some reply) m1 [] in
  match p with
  | Ret a => Q m0 r0 m cs (Settles (Ok a))
  | Throw e => Q m0 r0 m cs (Settles (Err e))
  | Read k => ∀ t, holds Q I (k m t) m0 r0 m cs
  | Modify f k => holds Q I k m0 r0 (f m) cs
  | Trace c k => holds Q I k m0 r0 m (cs ++ [c])
  | Send _ k => Q m0 r0 m cs Suspends ∧ later k
  | GetPortal k =>
      match _pendingPortalRequest m with
      | Some (PortalRejected e) => holds Q I (k (Err e)) m0 r0 m cs
      | Some (PortalPending _) => Q m0 r0 m cs Suspends ∧ later k
      | None =>
          match _portalInfo m with
          | Some info => holds Q I (k (Ok info)) m0 r0 m cs
          | None =>
              (∀ id, Q m0 r0 (set_portalInfo None (Some (PortalPending id)) m)
                       cs Suspends)
              ∧ later k
          end
      end
  end.

(** A run left the portal, the pending token requests and the federated
    servers as they were. *)
Definition untouched (m0 m : Manager) : Prop :=
  portal m = portal m0
  ∧ _pendingTokenRequests m = _pendingTokenRequests m0
  ∧ federatedServers m = federatedServers m0.

(** The contract of a promise stored under [key] in [_pendingTokenRequests]
    ([None]: stored nowhere).  A run that suspends the chain or rejects it
    leaves portal, pending requests and federated servers untouched.  A run
    resolves it only on a reply, and then either as [getTokenForServer]
    does, with the entry it writes for [key] and the pending request
    deleted, or as [getFreshToken] does, with the manager's token and the
    pending request set to [null]. *)
Definition token_contract (key : option string) : Contract Value :=
  fun m0 r0 m cs out =>
    match out, key with
    | Settles (Ok v), Some k =>
        is_Some r0
        ∧ portal m = portal m0
        ∧ ((∃ entry,
              federatedServers m = <[k := entry]> (federatedServers m0)
              ∧ _pendingTokenRequests m = delete k (_pendingTokenRequests m0)
              ∧ v = VToken (st_token entry))
           ∨ (k = portal m0
              ∧ federatedServers m = federatedServers m0
              ∧ _pendingTokenRequests m
                = <[k := SlotNull]> (_pendingTokenRequests m0)
              ∧ v = VToken (token m)))
    | _, _ => untouched m0 m
    end.

(** The promise is in flight. *)
Definition is_waiting (P : Promise) : Prop :=
  match p_state P with
  | Waiting _ _ => True
  | Done _ => False
  end.

(** The promise has been resolved. *)
Definition is_resolved (P : Promise) : Prop :=
  match p_state P with
  | Done (Ok _) => True
  | _ => False
  end.

(** ** Consistent worlds *)

(** A world is consistent, for a manager of portal [P], when every promise
    that was stored under a key and has not been resolved is the promise
    that [_pendingTokenRequests] holds for that key, and every promise that
    waits keeps its contract from here on. *)
Definition consistent (P : string) (w : World) : Prop :=
  portal (mgr w) = P
  ∧ ∀ pid Pr, promises w !! pid = Some Pr →
      (∀ key, p_key Pr = Some key → ¬ is_resolved Pr →
              _pendingTokenRequests (mgr w) !! key = Some (SlotPromise pid))
      ∧ match p_state Pr with
        | Done _ => True
        | Waiting _ k =>
            ∀ reply m1, portal m1 = P →
              holds (token_contract (p_key Pr)) (λ m, portal m = P)
                    (k reply) m1 (Some reply) m1 []
        end.

(** What one run of a promise stored under [key] did to the manager:
    nothing to portal, pending requests and federated servers, unless it
    resolved the promise. *)
Definition run_effect (key : option string) (m m' : Manager)
    (state : Paused Value) : Prop :=
  portal m' = portal m
  ∧ (untouched m m' ∧ ¬ (∃ v, state = Done (Ok v) ∧ is_Some key)
     ∨ ∃ k0 v,
         key = Some k0 ∧ state = Done (Ok v)
         ∧ ((∃ entry,
               federatedServers m' = <[k0 := entry]> (federatedServers m)
               ∧ _pendingTokenRequests m' = delete k0 (_pendingTokenRequests m)
               ∧ v = VToken (st_token entry))
            ∨ (federatedServers m' = federatedServers m
               ∧ _pendingTokenRequests m'
                 = <[k0 := SlotNull]> (_pendingTokenRequests m)
               ∧ v = VToken (token m')))).

(** Between [w] and [w'] no promise was made, none changed its key, and
    only promises that waited changed at all. *)
Definition evolves (w w' : World) : Prop :=
  List.length (promises w') = List.length (promises w)
  ∧ ∀ pid Pr Pr',
      promises w !! pid = Some Pr → promises w' !! pid = Some Pr' →
      p_key Pr' = p_key Pr
      ∧ (is_waiting Pr' → is_waiting Pr)
      ∧ (¬ is_waiting Pr → Pr' = Pr).

(** Between [w] and [w'] an entry of [federatedServers] changed only where a
    promise that waited under that very root was resolved, and then to the
    entry whose token the promise was resolved with. *)
Definition written_by_resolution (w w' : World) : Prop :=
  ∀ root,
    federatedServers (mgr w') !! root ≠ federatedServers (mgr w) !! root →
    ∃ pid Pr entry,
      promises w !! pid = Some Pr ∧ p_key Pr = Some root ∧ is_waiting Pr
      ∧ promises w' !! pid
        = Some {| p_key := Some root;
                  p_state := Done (Ok (VToken (st_token entry))) |}
      ∧ federatedServers (mgr w') !! root = Some entry.

(** Between [w] and [w'] every promise that waited under a key and was
    resolved left no promise under that key. *)
Definition cleared_by_resolution (w w' : World) : Prop :=
  ∀ pid Pr Pr' key v,
    promises w !! pid = Some Pr → is_waiting Pr → p_key Pr = Some key →
    promises w' !! pid = Some Pr' → p_state Pr' = Done (Ok v) →
    pending_promise (_pendingTokenRequests (mgr w') !! key) = None.

(** The three together, for a world that stays consistent. *)
Definition tracks (P : string) (w w' : World) : Prop :=
  consistent P w'
  ∧ evolves w w'
  ∧ written_by_resolution w w'
  ∧ cleared_by_resolution w w'.


(** [settles p r w rl wl w' res cs]: the chain [p], run in world [w] on [r]
    and resumed any number of times, each time in whatever world the reply
    finds, settles with [res] in world [w'], in a run that began in world
    [wl] on [rl]; [cs] are the calls that all its runs recorded. *)
Inductive settles {A : Type}
  : Async A → option (Result Reply) → World →
    option (Result Reply) → World → World → Result A → list Call → Prop :=
| settles_now p r w w' res cs :
    run p w = (w', Done res) →
    calls w' = (calls w ++ cs)%list →
    settles p r w r w w' res cs
| settles_later p r w w1 on k cs1 reply w2 rl wl w' res cs2 :
    run p w = (w1, Waiting on k) →
    calls w1 = (calls w ++ cs1)%list →
    settles (k reply) (Some reply) w2 rl wl w' res cs2 →
    settles p r w rl wl w' res (cs1 ++ cs2)%list.

(** The calls that a run of the chain of [getFreshToken] records: one, of
    [refreshCredentials], in the run in which the chain is made. *)
Definition calls_of_runs (r0 : option (Result Reply)) : list Call :=
  match r0 with
  | None => [refreshCredentials_called]
  | Some _ => []
  end.

(** The contract of the chain of [getFreshToken] towards its callers: the
    run in which the chain is made calls [refreshCredentials] once and no
    later run does; a run resolves the chain only on the reply of a token
    request, and then to the token of that reply, which [updateToken] has
    just made the manager's. *)
Definition fresh_contract : Contract Value :=
  fun m0 r0 m cs out =>
    cs = calls_of_runs r0
    ∧ match out with
      | Settles (Ok v) =>
          ∃ response,
            r0 = Some (Ok response)
            ∧ token m = Some (rp_token response)
            ∧ v = VToken (Some (rp_token response))
            ∧ _pendingTokenRequests m !! portal m = Some SlotNull
      | _ => True
      end.

(** ** Example managers, replies and worlds *)

(** A manager whose token expired at time [1000] and that has nothing to
    refresh it with. *)
Definition stale_options : Options :=
  {| o_clientId := None; o_refreshToken := None;
     o_refreshTokenExpires := None; o_username := None; o_password := None;
     o_token := Some "stale"; o_tokenExpires := Some 1000;
     o_portal := Some "https://portal.example.com/sharing/rest/";
     o_ssl := None; o_provider := None; o_tokenDuration := None;
     o_redirectUri := None; o_server := None |}.

(** A manager with a token that lasts until time [9000]. *)
Definition signed_in_options : Options :=
  {| o_clientId := None; o_refreshToken := None;
     o_refreshTokenExpires := None; o_username := Some "casey";
     o_password := Some "secret";
     o_token := Some "home"; o_tokenExpires := Some 9000;
     o_portal := Some "https://portal.example.com/sharing/rest/";
     o_ssl := None; o_provider := None; o_tokenDuration := None;
     o_redirectUri := None; o_server := None |}.

Definition gis_url : string :=
  "https://GIS.example.com/arcgis/rest/services/Parcels/FeatureServer".

Definition gis_root : string := "https://gis.example.com/arcgis".

(** A reply of [`${root}/rest/info`] that names an owning system. *)
Definition owned_by (owning : string) : Reply :=
  {| owningSystemUrl := Some owning; authInfo := None; rp_token := "";
     rp_expires := 0; rp_refreshToken := None;
     rp_refreshTokenExpires := None; authorizedCrossOriginDomains := None |}.

(** A reply with a token that expires at [expires]. *)
Definition token_reply (t : string) (expires : Z) : Reply :=
  {| owningSystemUrl := None; authInfo := None; rp_token := t;
     rp_expires := expires; rp_refreshToken := None;
     rp_refreshTokenExpires := None; authorizedCrossOriginDomains := None |}.

Definition network_down : Error :=
  ArcGISRequestError "Failed to fetch" None
    (Some "https://portal.example.com/sharing/rest/portals/self") None.

(** The stale manager, asked for a fresh token at time [2000]. *)
Definition stale_asked : nat * World :=
  getFreshToken None (start (manager_of stale_options) 2000).

(** The signed-in manager at time [5000], asked for a token for [gis_url],
    after the request for the portal has failed. *)
Definition gis_asked : World :=
  steps [CallGetTokenForServer gis_url None; Respond 0 (Err network_down)]
        (start (manager_of signed_in_options) 5000).

(** A manager whose portal was given with two trailing slashes: [cleanUrl]
    strips one. *)
Definition slashed_options : Options :=
  {| o_clientId := None; o_refreshToken := None;
     o_refreshTokenExpires := None; o_username := None; o_password := None;
     o_token := Some "home"; o_tokenExpires := Some 9000;
     o_portal := Some "https://portal.example.com/sharing/rest//";
     o_ssl := None; o_provider := None; o_tokenDuration := None;
     o_redirectUri := None; o_server := None |}.

(** The reply of the example portal's [/sharing/rest/info]. *)
Definition portal_info_reply : Reply :=
  {| owningSystemUrl := None;
     authInfo :=
       Some {| tokenServicesUrl :=
                 "https://portal.example.com/sharing/rest/generateToken" |};
     rp_token := ""; rp_expires := 0; rp_refreshToken := None;
     rp_refreshTokenExpires := None; authorizedCrossOriginDomains := None |}.

(** The reply of the example portal's [/portals/self]. *)
Definition portal_self_reply : Reply :=
  {| owningSystemUrl := None; authInfo := None; rp_token := "";
     rp_expires := 0; rp_refreshToken := None;
     rp_refreshTokenExpires := None;
     authorizedCrossOriginDomains := Some ["gis.example.com"] |}.

(** What became of promise [p]: [None] while it waits. *)
Definition outcome (p : nat) (w : World) : option (Result Value) :=
  match promises w !! p with
  | Some {| p_state := Done r |} => Some r
  | _ => None
  end.

(** A federation check for the examples: only the example portal owns
    servers. *)
Definition owned_by_example_portal (owningSystemUrl portalUrl : string) : bool :=
  String.eqb owningSystemUrl "https://portal.example.com".

Definition example_referer : string := "https://app.example.com".


(** ** The rest of the manager *)

(** [get canRefresh()] *)
Definition canRefresh (m : Manager) : bool :=
  if Js.truthy (username m) && Js.truthy (password m) then true
  else if Js.truthy (clientId m) && Js.truthy (refreshToken m)
          && Js.truthy (redirectUri m) then true
  else false.

(** An [ICredential] of the ArcGIS API for JavaScript; [expires] is a
    number, epoch milliseconds. *)
Record Credential := {
  c_expires : option Z;
  c_server : string;
  c_ssl : option bool;
  c_token : option string;
  c_userId : option string
}.

(** [toCredential()]; [None] is the [TypeError] of [getTime] on a
    [tokenExpires] that is [undefined]. *)
Definition toCredential (m : Manager) : option Credential :=
  match tokenExpires m with
  | None => None
  | Some e =>
      Some {| c_expires := Some e;
              c_server := match server m with
                          | Some (String _ _ as s) => s
                          | _ => portal m
                          end;
              c_ssl := ssl m;
              c_token := token m;
              c_userId := username m |}
  end.


(** *** Authentication by [postMessage] *)

(** The [data] of a [message] event between a host application and one it
    embeds: its [type], and the [credential] or the [error] (name and
    message) that comes with it. *)
Record MessageData := {
  d_type : string;
  d_credential : option Serialized;
  d_error : option (string * string)
}.

Record MessageEvent := {
  ev_origin : string;
  ev_data : MessageData
}.

(** The object of [toJSON()], which the structured clone of [postMessage]
    hands over with its [Date]s, read as the [options] of the
    constructor. *)
Definition options_of (credential : Serialized) : Options :=
  {| o_clientId := s_clientId credential;
     o_refreshToken := s_refreshToken credential;
     o_refreshTokenExpires := s_refreshTokenExpires credential;
     o_username := s_username credential;
     o_password := s_password credential;
     o_token := s_token credential;
     o_tokenExpires := s_tokenExpires credential;
     o_portal := s_portal credential;
     o_ssl := s_ssl credential;
     o_provider := None;
     o_tokenDuration := s_tokenDuration credential;
     o_redirectUri := s_redirectUri credential;
     o_server := s_server credential |}.

(** What the handler of [createPostMessageHandler(validOrigins)] does with
    an event at time [now]: [None] is the [TypeError] of [getTime] on a
    [tokenExpires] that is [undefined], [Some None] no message, and
    [Some (Some (msg, origin))] is [event.source.postMessage(msg, origin)]. *)
Definition createPostMessageHandler
    (validOrigins : list string) (m : Manager) (now : Z) (event : MessageEvent)
  : option (option (MessageData * string)) :=
  (* Verify that the origin is valid *)
  let isValidOrigin := existsb (String.eqb (ev_origin event)) validOrigins in
  (* Ensure the message type is something we want to handle *)
  let isValidType :=
    String.eqb (d_type (ev_data event)) "arcgis:auth:requestCredential" in
  match tokenExpires m with
  | None => None
  | Some e =>
      (* Ensure we don't pass an expired session forward *)
      let isTokenValid := now <? e in
      if isValidOrigin && isValidType then
        Some (Some
          (if isTokenValid then
             {| d_type := "arcgis:auth:credential";
                d_credential := Some (toJSON m);
                d_error := None |}
           else
             {| d_type := "arcgis:auth:error";
                d_credential := None;
                d_error :=
                  Some ("tokenExpiredError",
                        "Token was expired, and not returned to the child application") |},
           ev_origin event))
      else Some None
  end.

(** What [parentMessageHandler(event)] returns or throws. *)
Inductive Handled :=
| Built (m : Manager)
| Raised (name message : string)
| RaisedTypeError.

(** [ArcGISIdentityManager.parentMessageHandler(event)] *)
Definition parentMessageHandler (event : MessageEvent) : Handled :=
  let data := ev_data event in
  if String.eqb (d_type data) "arcgis:auth:credential" then
    match d_credential data with
    | Some credential =>
        match new_manager (options_of credential) with
        | Some m => Built m
        | None => RaisedTypeError
        end
    | None => RaisedTypeError
    end
  else if String.eqb (d_type data) "arcgis:auth:error" then
    match d_error data with
    | Some (name, message) => Raised name message
    | None => RaisedTypeError
    end
  else Raised "Error" "Unknown message type.".

(** ** What the further properties are stated with *)

(** The contract of a chain that keeps [Φ]: a run that begins in a state
    with [Φ] ends in one. *)
Definition stable {A : Type} (Φ : Manager → Prop) : Contract A :=
  fun m0 _ m _ _ => Φ m0 → Φ m.

(** Every promise that waits keeps [Φ] from here on, in whatever state it
    is resumed. *)
Definition steady (Φ : Manager → Prop) (w : World) : Prop :=
  ∀ pid Pr, promises w !! pid = Some Pr →
    match p_state Pr with
    | Done _ => True
    | Waiting _ k =>
        ∀ reply m1,
          holds (stable Φ) (λ _, True) (k reply) m1 (Some reply) m1 []
    end.

(** What a world [w] keeps of the world [w0] it comes from: its promises
    keep [Φ], and it has [Φ] if [w0] had. *)
Definition kept_since (Φ : Manager → Prop) (w0 w : World) : Prop :=
  steady Φ w ∧ (Φ (mgr w0) → Φ (mgr w)).

(** The properties that the constructor sets and that say who the manager
    is and where it signs in. *)
Definition same_identity (m0 m : Manager) : Prop :=
  clientId m = clientId m0
  ∧ _username m = _username m0
  ∧ password m = password m0
  ∧ portal m = portal m0
  ∧ ssl m = ssl m0
  ∧ provider m = provider m0
  ∧ tokenDuration m = tokenDuration m0
  ∧ redirectUri m = redirectUri m0
  ∧ server m = server m0.

(** Every trusted domain is an [https://] one. *)
Definition all_https (m : Manager) : Prop :=
  Forall (λ d, Js.startsWith "https://" d = true) (trustedDomains m).

(** The error carries one of the codes that the manager raises itself. *)
Definition token_request_error (e : Error) : Prop :=
  ∃ code, err_code e = Some code
          ∧ In code [NOT_FEDERATED; TOKEN_REFRESH_FAILED;
                     REFRESH_TOKEN_EXCHANGE_FAILED;
                     GENERATE_TOKEN_FOR_SERVER_FAILED].

(** The contract of the chain of [getTokenForServer] towards its callers.
    A run resolves it only on the reply of a token request, to the token of
    that reply, and caches the token under [root]: with the expiry of the
    reply brought forward by five minutes, or, when the token is the
    manager's own refreshed one, with the manager's expiry.  A run rejects
    it with an error of the manager, with a [TypeError], or with the very
    failure that the run began on: that of the request for the portal or for
    the server's or the owning system's description. *)
Definition server_contract (root : string) : Contract Value :=
  fun m0 r0 m cs out =>
    match out with
    | Settles (Ok v) =>
        ∃ response entry,
          r0 = Some (Ok response)
          ∧ federatedServers m = <[root := entry]> (federatedServers m0)
          ∧ _pendingTokenRequests m = delete root (_pendingTokenRequests m0)
          ∧ v = VToken (Some (rp_token response))
          ∧ st_token entry = Some (rp_token response)
          ∧ (st_expires entry = Some (rp_expires response - 1000 * 60 * 5)
             ∨ (st_expires entry = Some (rp_expires response)
                ∧ token m = Some (rp_token response)
                ∧ tokenExpires m = Some (rp_expires response)))
    | Settles (Err e) =>
        token_request_error e
        ∨ (∃ message, e = TypeError message)
        ∨ r0 = Some (Err e)
        ∨ _pendingPortalRequest m0 = Some (PortalRejected e)
    | Suspends => True
    end.




(** The contract of the chain of [getFreshToken], with the expiry: a run
    resolves it only on the reply of a token request, and then the
    manager's token and expiry are those of the reply and no promise is
    left under the portal. *)
Definition fresh_expiry_contract : Contract Value :=
  fun m0 r0 m cs out =>
    match out with
    | Settles (Ok v) =>
        ∃ response,
          r0 = Some (Ok response)
          ∧ token m = Some (rp_token response)
          ∧ tokenExpires m = Some (rp_expires response)
          ∧ v = VToken (Some (rp_token response))
          ∧ _pendingTokenRequests m !! portal m = Some SlotNull
    | _ => True
    end.

(** *** The portal's description *)

(** The portal's description is cached, on its way, or was refused. *)
Definition portal_asked (m : Manager) : Prop :=
  is_Some (_pendingPortalRequest m) ∨ is_Some (_portalInfo m).

(** The requests of [getPortal] among those made: the only ones that carry
    [authentication: this]. *)
Definition portal_requests (w : World) : list Request :=
  filter (λ r, rq_authentication r = true) (requests w).

(** [asks_once p m]: the chain [p], about to continue in state [m], makes
    no request with [authentication: this] of its own and never forgets
    that the portal was asked; nor does it when it is resumed, in whatever
    state. *)
Fixpoint asks_once {A : Type} (p : Async A) (m : Manager) : Prop :=
  let later (k : Result Reply → Async A) :=
    ∀ reply m1, asks_once (k reply) m1 in
  match p with
  | Ret _ => True
  | Throw _ => True
  | Read k => ∀ t, asks_once (k m t) m
  | Modify f k => (portal_asked m → portal_asked (f m)) ∧ asks_once k (f m)
  | Trace _ k => asks_once k m
  | Send r k => rq_authentication r = false ∧ later k
  | GetPortal k =>
      match _pendingPortalRequest m with
      | Some (PortalRejected e) => asks_once (k (Err e)) m
      | Some (PortalPending _) => later k
      | None =>
          match _portalInfo m with
          | Some info => asks_once (k (Ok info)) m
          | None => later k
          end
      end
  end.

(** At most one request for the portal's description was made, and none
    while the manager does not know of one. *)
Definition asked_at_most_once (w : World) : Prop :=
  (List.length (portal_requests w) ≤ 1)%nat
  ∧ (¬ portal_asked (mgr w) → portal_requests w = []).

(** So it is, and every promise that waits will make no request for the
    portal's description of its own. *)
Definition asked_once (w : World) : Prop :=
  asked_at_most_once w
  ∧ ∀ pid Pr, promises w !! pid = Some Pr →
      match p_state Pr with
      | Done _ => True
      | Waiting _ k => ∀ reply m1, asks_once (k reply) m1
      end.

(** ** Replays and further examples *)

(** The chain [p], run in [w] on [r] and resumed on each of [replies] in
    turn, each time in the world that the run before left: how it settles
    ([None]: it still waits after the last reply), with the reply and the
    world that the settling run began with and the world it left. *)
Fixpoint replay {A : Type} (p : Async A) (r : option (Result Reply))
    (w : World) (replies : list (Result Reply))
  : option (option (Result Reply) * World * World * Result A) :=
  match run p w with
  | (w', Done res) => Some (r, w, w', res)
  | (w', Waiting _ k) =>
      match replies with
      | [] => None
      | reply :: rest => replay (k reply) (Some reply) w' rest
      end
  end.

(** A manager signed in through OAuth that was given no redirect URI. *)
Definition oauth_without_redirect_options : Options :=
  {| o_clientId := Some "app"; o_refreshToken := Some "refresh";
     o_refreshTokenExpires := Some 1000000000000;
     o_username := Some "casey"; o_password := None;
     o_token := Some "home"; o_tokenExpires := Some 9000;
     o_portal := Some "https://portal.example.com/sharing/rest/";
     o_ssl := None; o_provider := None; o_tokenDuration := None;
     o_redirectUri := None; o_server := None |}.

(** A manager signed in through a social login. *)
Definition social_options : Options :=
  {| o_clientId := Some "app"; o_refreshToken := None;
     o_refreshTokenExpires := None;
     o_username := Some "casey"; o_password := None;
     o_token := Some "home"; o_tokenExpires := Some 9000;
     o_portal := Some "https://portal.example.com/sharing/rest";
     o_ssl := None; o_provider := Some "facebook"; o_tokenDuration := None;
     o_redirectUri := None; o_server := None |}.


(** A manager made from a token alone, as [fromToken] is given one. *)
Definition token_only_options : Options :=
  {| o_clientId := None; o_refreshToken := None;
     o_refreshTokenExpires := None; o_username := None; o_password := None;
     o_token := Some "borrowed"; o_tokenExpires := None;
     o_portal := Some "https://portal.example.com/sharing/rest";
     o_ssl := None; o_provider := None; o_tokenDuration := None;
     o_redirectUri := None; o_server := None |}.

(** The request of an embedded application for the host's credential. *)
Definition credential_request (origin : string) : MessageEvent :=
  {| ev_origin := origin;
     ev_data := {| d_type := "arcgis:auth:requestCredential";
                   d_credential := None; d_error := None |} |}.

Definition roads_url : string :=
  "https://roads.example.com/arcgis/rest/services/Roads/MapServer".

(** ** Bounds *)

(** [within s nr nc p m]: the chain [p], about to continue in state [m] of
    a manager whose [server] is [s], makes at most [nr] requests and
    records at most [nc] calls before it settles, whatever the replies and
    the states of that manager it is resumed in; and it leaves [server]
    alone.  Waiting for the portal counts as a request. *)
Fixpoint within {A : Type} (s : option string) (nr nc : nat) (p : Async A)
    (m : Manager) : Prop :=
  let later (n : nat) (k : Result Reply → Async A) :=
    ∀ reply m1, server m1 = s → within s n nc (k reply) m1 in
  match p with
  | Ret _ => True
  | Throw _ => True
  | Read k => ∀ t, within s nr nc (k m t) m
  | Modify f k => server (f m) = server m ∧ within s nr nc k (f m)
  | Trace _ k =>
      match nc with
      | O => False
      | S nc' => within s nr nc' k m
      end
  | Send _ k =>
      match nr with
      | O => False
      | S nr' => later nr' k
      end
  | GetPortal k =>
      match nr with
      | O => False
      | S nr' => later nr' k
      end
  end.

(** The world that [replay] ends in, whether the chain has settled or
    still waits. *)
Fixpoint replay_world {A : Type} (p : Async A) (w : World)
    (replies : list (Result Reply)) : World :=
  match run p w with
  | (w', Done _) => w'
  | (w', Waiting _ k) =>
      match replies with
      | [] => w'
      | reply :: rest => replay_world (k reply) w' rest
      end
  end.

(** [s] has a match of [/(https?:\/\/)(.+)/]: a protocol followed by a
    character that is no line terminator. *)
Definition has_protocol (s : string) : Prop :=
  ∃ pre protocol c rest,
    s = (pre ++ protocol ++ String c rest)%string
    ∧ (protocol = "https://" ∨ protocol = "http://")
    ∧ Js.is_line_terminator c = false.

(** * Properties *)

(** ** Server roots *)

Lemma dot_plus_id (s : string) :
  (∀ c, In c (list_ascii_of_string s) → Js.is_line_terminator c = false) →
  dot_plus s = s.
Proof.
  induction s as [|c s IH]; simpl; intros H; [reflexivity|].
  rewrite (H c) by (left; reflexivity).
  f_equal. apply IH. intros c' Hc'. apply H. right. exact Hc'.
Qed.

Lemma split_no_separator (sep : ascii) (s : string) :
  ¬ In sep (list_ascii_of_string s) → Js.split sep s = [s].
Proof.
  induction s as [|c s IH]; simpl; intros H; [reflexivity|].
  destruct (ascii_dec c sep) as [->|_].
  - exfalso. apply H. left. reflexivity.
  - rewrite IH; [reflexivity|]. intros Hin. apply H. right. exact Hin.
Qed.

Lemma split_at_separator (sep : ascii) (a b : string) :
  ¬ In sep (list_ascii_of_string a) →
  Js.split sep (a ++ String sep b) = a :: Js.split sep b.
Proof.
  induction a as [|c a IH]; simpl; intros H.
  - destruct (ascii_dec sep sep); [reflexivity|congruence].
  - destruct (ascii_dec c sep) as [->|_].
    + exfalso. apply H. left. reflexivity.
    + rewrite IH; [reflexivity|]. intros Hin. apply H. right. exact Hin.
Qed.

Lemma split_nonempty (sep : ascii) (s : string) : Js.split sep s ≠ [].
Proof.
  destruct s as [|c s]; simpl; [discriminate|].
  destruct (ascii_dec c sep); [discriminate|].
  destruct (Js.split sep s); discriminate.
Qed.

Lemma join_split (sep : ascii) (s : string) :
  Js.join (String sep EmptyString) (Js.split sep s) = s.
Proof.
  induction s as [|c s IH]; simpl; [reflexivity|].
  destruct (ascii_dec c sep) as [->|_].
  - pose proof (split_nonempty sep s) as Hne.
    simpl. destruct (Js.split sep s) as [|x r]; [congruence|].
    simpl in *. rewrite IH. reflexivity.
  - pose proof (split_nonempty sep s) as Hne.
    destruct (Js.split sep s) as [|x r]; [congruence|].
    destruct r as [|y r]; simpl in *; rewrite <- IH; reflexivity.
Qed.

Lemma match_protocol_head (p rest : string) :
  p = "https://" ∨ p = "http://" →
  dot_plus rest ≠ "" →
  match_protocol (p ++ rest) = Some (p, dot_plus rest).
Proof.
  intros [-> | ->] Hrest.
  - cbn [append]. unfold match_protocol, protocol_here.
    destruct rest; simpl in *; [congruence|].
    destruct (Js.is_line_terminator a); [congruence|reflexivity].
  - cbn [append]. unfold match_protocol, protocol_here.
    destruct rest; simpl in *; [congruence|].
    destruct (Js.is_line_terminator a); [congruence|reflexivity].
Qed.

(** The root of a URL whose part before the services segment is a
    protocol, a host and a path: the host in lower case, the path as it
    is. *)
Lemma getServerRootUrl_with_path (url protocol host path : string) :
  before_services (cleanUrl url) = (protocol ++ host ++ "/" ++ path)%string →
  protocol = "https://" ∨ protocol = "http://" →
  host ≠ "" →
  ¬ In "/"%char (list_ascii_of_string host) →
  (∀ c, In c (list_ascii_of_string (host ++ "/" ++ path)) →
        Js.is_line_terminator c = false) →
  getServerRootUrl url
  = Some (protocol ++ Js.toLowerCase host ++ "/" ++ path)%string.
Proof.
  intros Hroot Hp Hhost Hslash Hlt.
  unfold getServerRootUrl. rewrite Hroot.
  rewrite match_protocol_head; [|exact Hp|].
  - rewrite (dot_plus_id _ Hlt).
    change (host ++ "/" ++ path)%string
      with (host ++ String "/"%char path)%string.
    rewrite split_at_separator by exact Hslash.
    rewrite join_split. reflexivity.
  - rewrite (dot_plus_id _ Hlt). destruct host; [congruence|discriminate].
Qed.

(** The root of a URL that has no path before the services segment: the
    slash is appended all the same. *)
Lemma getServerRootUrl_host_only (url protocol host : string) :
  before_services (cleanUrl url) = (protocol ++ host)%string →
  protocol = "https://" ∨ protocol = "http://" →
  host ≠ "" →
  ¬ In "/"%char (list_ascii_of_string host) →
  (∀ c, In c (list_ascii_of_string host) → Js.is_line_terminator c = false) →
  getServerRootUrl url = Some (protocol ++ Js.toLowerCase host ++ "/")%string.
Proof.
  intros Hroot Hp Hhost Hslash Hlt.
  unfold getServerRootUrl. rewrite Hroot.
  rewrite match_protocol_head; [|exact Hp|].
  - rewrite (dot_plus_id _ Hlt).
    rewrite split_no_separator by exact Hslash. reflexivity.
  - rewrite (dot_plus_id _ Hlt). destruct host; [congruence|discriminate].
Qed.

Lemma spec_lower_host_part_slash (host rest : string) :
  ¬ In "/"%char (list_ascii_of_string host) →
  spec_lower_host_part (host ++ String "/"%char rest)
  = (Js.toLowerCase host ++ String "/"%char rest)%string.
Proof.
  induction host as [|c host IH]; simpl; intros H; [reflexivity|].
  destruct (ascii_dec c "/") as [->|_].
  - exfalso. apply H. left. reflexivity.
  - rewrite IH; [reflexivity|]. intros Hin. apply H. right. exact Hin.
Qed.

(** Where the part before the services segment has a path, the code
    computes the root that the specification words. *)
Lemma getServerRootUrl_spec_with_path (url protocol host path : string) :
  cleanUrl url = url →
  before_services url = (protocol ++ host ++ "/" ++ path)%string →
  protocol = "https://" ∨ protocol = "http://" →
  host ≠ "" →
  ¬ In "/"%char (list_ascii_of_string host) →
  (∀ c, In c (list_ascii_of_string (host ++ "/" ++ path)) →
        Js.is_line_terminator c = false) →
  getServerRootUrl url = Some (spec_server_root url).
Proof.
  intros Hclean Hroot Hp Hhost Hslash Hlt.
  rewrite (getServerRootUrl_with_path url protocol host path);
    try assumption; [|rewrite Hclean; exact Hroot].
  unfold spec_server_root. rewrite Hroot. f_equal.
  change (host ++ "/" ++ path)%string
    with (host ++ String "/"%char path)%string.
  destruct Hp as [-> | ->].
  - change (spec_lower_host ("https://" ++ host ++ String "/"%char path))
      with ("https://" ++ spec_lower_host_part (host ++ String "/"%char path))%string.
    rewrite spec_lower_host_part_slash by exact Hslash. reflexivity.
  - change (spec_lower_host ("http://" ++ host ++ String "/"%char path))
      with ("http://" ++ spec_lower_host_part (host ++ String "/"%char path))%string.
    rewrite spec_lower_host_part_slash by exact Hslash. reflexivity.
Qed.

(** C4 (as the code has it).  [getServerRootUrl] gives
    ["https://foo.com/arcgis"] for
    ["https://Foo.Com/arcgis/rest/services/X/FeatureServer"], as the claim
    says.  For a URL whose services segment follows the host directly it
    does more than strip the segment and lower-case the host: it leaves a
    slash behind the host, ["https://foo.com/"], where stripping and
    lower-casing give ["https://foo.com"]. *)
Theorem getServerRootUrl_trailing_slash :
  getServerRootUrl "https://Foo.Com/arcgis/rest/services/X/FeatureServer"
  = Some "https://foo.com/arcgis"
  ∧ getServerRootUrl "https://Foo.Com/rest/services/X/FeatureServer"
    = Some "https://foo.com/"
  ∧ spec_server_root "https://Foo.Com/rest/services/X/FeatureServer"
    = "https://foo.com"
  ∧ getServerRootUrl "https://Foo.Com/rest/services/X/FeatureServer"
    ≠ Some (spec_server_root "https://Foo.Com/rest/services/X/FeatureServer").
Proof. repeat split; try reflexivity. discriminate. Qed.

(** ** [updateToken] *)

(** C10.  [updateToken(newToken, newTokenExpiration)] sets [token] and
    [tokenExpires] to the values given and leaves every other property of
    the manager as it was; the manager it returns is the updated one. *)
Theorem updateToken_frame
    (m : Manager) (newToken : option string) (newTokenExpiration : option Z) :
  let m' := updateToken newToken newTokenExpiration m in
  token m' = newToken
  ∧ tokenExpires m' = newTokenExpiration
  ∧ clientId m' = clientId m
  ∧ refreshToken m' = refreshToken m
  ∧ refreshTokenExpires m' = refreshTokenExpires m
  ∧ _username m' = _username m
  ∧ username m' = username m
  ∧ password m' = password m
  ∧ portal m' = portal m
  ∧ ssl m' = ssl m
  ∧ provider m' = provider m
  ∧ tokenDuration m' = tokenDuration m
  ∧ redirectUri m' = redirectUri m
  ∧ server m' = server m
  ∧ federatedServers m' = federatedServers m
  ∧ trustedDomains m' = trustedDomains m
  ∧ _pendingTokenRequests m' = _pendingTokenRequests m
  ∧ _user m' = _user m
  ∧ _portalInfo m' = _portalInfo m
  ∧ _pendingPortalRequest m' = _pendingPortalRequest m.
Proof. cbv zeta. repeat split. Qed.

(** ** Refreshing credentials *)

(** C9.  [refreshCredentials] first clears the cached user.  With neither
    a user name and password nor a client id and refresh token it is
    rejected with [TOKEN_REFRESH_FAILED] and no request is made; with a
    user name and password it is [refreshWithUsernameAndPassword]; without
    these and with a client id and refresh token it is
    [refreshWithRefreshToken].  The user name is the stored one: the
    snapshot that could supply one has just been cleared. *)
Theorem refreshCredentials_dispatch
    (requestOptions : option RequestOptions) (w : World) :
  let m := mgr w in
  let has_password := Js.truthy (_username m) && Js.truthy (password m) in
  let has_refreshToken := Js.truthy (clientId m) && Js.truthy (refreshToken m) in
  _user (mgr (user_cleared w)) = None
  ∧ (has_password = false → has_refreshToken = false →
       run (refreshCredentials requestOptions) w
       = (user_cleared w, Done (Err no_credentials_error))
       ∧ err_code no_credentials_error = Some TOKEN_REFRESH_FAILED
       ∧ requests (user_cleared w) = requests w)
  ∧ (has_password = true →
       run (refreshCredentials requestOptions) w
       = run (refreshWithUsernameAndPassword requestOptions) (user_cleared w))
  ∧ (has_password = false → has_refreshToken = true →
       run (refreshCredentials requestOptions) w
       = run (refreshWithRefreshToken None) (user_cleared w)).
Proof.
  assert (Hu : ∀ x, Js.truthy (if Js.truthy x then x else None) = Js.truthy x)
    by (intros [[|]|]; reflexivity).
  cbv zeta. unfold refreshToken.
  split; [reflexivity|].
  split; [|split].
  - intros Hp Hr. cbn. unfold username. cbn.
    rewrite Hu, Hp, Hr. auto.
  - intros Hp. cbn. unfold username. cbn.
    rewrite Hu, Hp. reflexivity.
  - intros Hp Hr. cbn. unfold username. cbn.
    rewrite Hu, Hp, Hr. reflexivity.
Qed.


(** ** Tokens for servers *)


(** ** Serialization *)






(** ** Runs and contracts *)

Lemma run_promises {A : Type} (p : Async A) (w : World) :
  promises (run p w).1 = promises w.
Proof.
  revert w. induction p as [a|e|k IH|f k IH|r k IH|k IH|c k IH]; intros w;
    cbn [run]; try reflexivity.
  - apply IH.
  - rewrite IH. reflexivity.
  - destruct (_pendingPortalRequest (mgr w)) as [[id|e]|]; try reflexivity.
    + apply IH.
    + destruct (_portalInfo (mgr w)); [apply IH|reflexivity].
  - rewrite IH. reflexivity.
Qed.

Lemma run_now {A : Type} (p : Async A) (w : World) :
  now (run p w).1 = now w.
Proof.
  revert w. induction p as [a|e|k IH|f k IH|r k IH|k IH|c k IH]; intros w;
    cbn [run]; try reflexivity.
  - apply IH.
  - rewrite IH. reflexivity.
  - destruct (_pendingPortalRequest (mgr w)) as [[id|e]|]; try reflexivity.
    + apply IH.
    + destruct (_portalInfo (mgr w)); [apply IH|reflexivity].
  - rewrite IH. reflexivity.
Qed.

(** A run keeps what its chain's contract says. *)
Lemma run_holds {A : Type} (Q : Contract A) (I : Manager → Prop) (p : Async A) :
  ∀ w m0 r0 cs,
    holds Q I p m0 r0 (mgr w) cs →
    ∃ cs' : list Call, calls (run p w).1 = (calls w ++ cs')%list
           ∧ match (run p w).2 with
             | Done r => Q m0 r0 (mgr (run p w).1) (cs ++ cs')%list (Settles r)
             | Waiting _ k =>
                 Q m0 r0 (mgr (run p w).1) (cs ++ cs')%list Suspends
                 ∧ ∀ reply m1, I m1 →
                     holds Q I (k reply) m1 (Some reply) m1 []
             end.
Proof.
  induction p as [a|e|k IH|f k IH|r k IH|k IH|c k IH]; intros w m0 r0 cs H;
    cbn [run holds] in *.
  - exists []. rewrite !app_nil_r. split; [reflexivity|exact H].
  - exists []. rewrite !app_nil_r. split; [reflexivity|exact H].
  - apply IH, H.
  - apply (IH (with_mgr (f (mgr w)) w)), H.
  - exists []. rewrite !app_nil_r. cbn. split; [reflexivity|exact H].
  - destruct (_pendingPortalRequest (mgr w)) as [[id|e]|].
    + exists []. rewrite !app_nil_r. cbn. split; [reflexivity|exact H].
    + apply IH, H.
    + destruct (_portalInfo (mgr w)) as [info|].
      * apply IH, H.
      * exists []. rewrite !app_nil_r. cbn. split; [reflexivity|].
        destruct H as [H1 H2]. split; [apply H1|exact H2].
  - destruct (IH (with_calls (calls w ++ [c]) w) m0 r0 (cs ++ [c])%list H)
      as (cs' & Hc & Hq).
    exists (c :: cs'). cbn in Hc. rewrite Hc.
    split; [rewrite <- app_assoc; reflexivity|].
    replace (cs ++ c :: cs')%list with ((cs ++ [c]) ++ cs')%list
      by (rewrite <- app_assoc; reflexivity).
    exact Hq.
Qed.

Ltac unfold_chains :=
  unfold getTokenForServer_chain, getFreshToken_chain, on_serverInfo,
    on_authInfo, on_serverToken, generate_with, generateTokenForServer,
    fetchAuthorizedDomains, getPortal, this, refreshCredentials,
    refreshWithUsernameAndPassword, refreshWithRefreshToken,
    exchangeRefreshToken, request, modify, settle.

(** Walk through every branch of a chain. *)
Ltac crunch :=
  repeat first
    [ progress intros
    | progress cbn -[Z.ltb Z.sub Z.mul Js.truthy getServerRootUrl
                     normalize_domains getDomainCredentials] in *
    | match goal with
      | |- _ ∧ _ => split
      | |- untouched _ _ => repeat split; reflexivity
      | |- context [match ?x with _ => _ end] => destruct x eqn:?
      | |- context [if ?x then _ else _] => destruct x eqn:?
      end ].

Lemma refreshCredentials_contract
    (P : string) (requestOptions : option RequestOptions) (m : Manager) :
  holds (token_contract None) (λ m, portal m = P)
        (refreshCredentials requestOptions;;; Ret VThis)%async m None m [].
Proof. unfold_chains. crunch. Qed.

Lemma getTokenForServer_chain_contract
    (P url root : string) (requestOptions : option RequestOptions)
    (m : Manager) :
  holds (token_contract (Some root)) (λ m, portal m = P)
        (getTokenForServer_chain url root requestOptions) m None m [].
Proof.
  unfold_chains. crunch;
    try (eexists; reflexivity);
    left; eexists; repeat split; reflexivity.
Qed.

Lemma getFreshToken_chain_contract
    (P : string) (requestOptions : option RequestOptions) (m : Manager) :
  portal m = P →
  holds (token_contract (Some P)) (λ m, portal m = P)
        (getFreshToken_chain requestOptions) m None m [].
Proof.
  intros HP. unfold_chains. crunch;
    try (eexists; reflexivity);
    right; subst; repeat split; try reflexivity; congruence.
Qed.

(** ** Consistency of the event loop *)

Lemma resume_promises
    (pid : nat) (key : option string) (k : Result Reply → Async Value)
    (reply : Result Reply) (w : World) :
  promises (resume pid key k reply w)
  = <[pid := {| p_key := key; p_state := (run (k reply) w).2 |}]> (promises w).
Proof.
  unfold resume. rewrite <- (run_promises (k reply) w).
  destruct (run (k reply) w). reflexivity.
Qed.

Lemma resume_mgr
    (pid : nat) (key : option string) (k : Result Reply → Async Value)
    (reply : Result Reply) (w : World) :
  mgr (resume pid key k reply w) = mgr (run (k reply) w).1.
Proof. unfold resume. destruct (run (k reply) w). reflexivity. Qed.

(** What one resumption does. *)
Lemma resume_effect (P : string) (pid : nat) (key : option string)
    (on : Wait) (k : Result Reply → Async Value) (reply : Result Reply)
    (w : World) :
  consistent P w →
  promises w !! pid = Some {| p_key := key; p_state := Waiting on k |} →
  run_effect key (mgr w) (mgr (resume pid key k reply w)) (run (k reply) w).2
  ∧ match (run (k reply) w).2 with
    | Done _ => True
    | Waiting _ k' =>
        ∀ reply m1, portal m1 = P →
          holds (token_contract key) (λ m, portal m = P)
                (k' reply) m1 (Some reply) m1 []
    end.
Proof.
  intros [HP Hall] Hpid. rewrite resume_mgr.
  destruct (Hall pid _ Hpid) as [_ Hk]. cbn in Hk.
  destruct (run_holds _ _ _ w _ _ _ (Hk reply (mgr w) HP)) as (cs' & _ & Hq).
  unfold run_effect.
  destruct ((run (k reply) w).2) as [[v|e]|on' k'].
  - split; [|exact Logic.I]. destruct key as [k0|]; cbn in Hq.
    + destruct Hq as (_ & Hportal & [(entry & Hfed & Hpend & Hv)|(_ & Hfed & Hpend & Hv)]).
      * split; [exact Hportal|]. right. exists k0, v.
        repeat split. left. exists entry. auto.
      * split; [exact Hportal|]. right. exists k0, v.
        repeat split. right. auto.
    + split; [apply Hq|]. left. split; [exact Hq|].
      intros (v' & _ & [? ?]). discriminate.
  - split; [|exact Logic.I].
    assert (Hu : untouched (mgr w) (mgr (run (k reply) w).1))
      by (destruct key; exact Hq).
    split; [apply Hu|]. left. split; [exact Hu|].
    intros (v' & ? & _). discriminate.
  - destruct Hq as [Hq Hlater]. split; [|exact Hlater].
    assert (Hu : untouched (mgr w) (mgr (run (k reply) w).1))
      by (destruct key; exact Hq).
    split; [apply Hu|]. left. split; [exact Hu|].
    intros (v' & ? & _). discriminate.
Qed.

(** An effect leaves the slot of every other unresolved promise alone. *)
Lemma run_effect_slot (key : option string) (m m' : Manager)
    (state : Paused Value) (pid pid' : nat) (key' : string) :
  run_effect key m m' state →
  (∀ k0, key = Some k0 → _pendingTokenRequests m !! k0 = Some (SlotPromise pid)) →
  pid' ≠ pid →
  _pendingTokenRequests m !! key' = Some (SlotPromise pid') →
  _pendingTokenRequests m' !! key' = Some (SlotPromise pid').
Proof.
  intros (_ & [[(_ & -> & _) _] | (k0 & v & -> & _ & Hpend)]) Hkey Hne Hslot;
    [exact Hslot|].
  assert (key' ≠ k0).
  { intros ->. specialize (Hkey k0 eq_refl). congruence. }
  destruct Hpend as [(entry & _ & -> & _) | (_ & -> & _)].
  - rewrite lookup_delete_ne by congruence. exact Hslot.
  - rewrite lookup_insert_ne by congruence. exact Hslot.
Qed.

Lemma resume_consistent (P : string) (pid : nat) (key : option string)
    (on : Wait) (k : Result Reply → Async Value) (reply : Result Reply)
    (w : World) :
  consistent P w →
  promises w !! pid = Some {| p_key := key; p_state := Waiting on k |} →
  consistent P (resume pid key k reply w).
Proof.
  intros Hc Hpid.
  destruct (resume_effect P pid key on k reply w Hc Hpid) as [Heff Hlater].
  destruct Hc as [HP Hall].
  destruct (Hall pid _ Hpid) as [Hkey _]. cbn in Hkey.
  assert (Hkey0 : ∀ k0, key = Some k0 →
            _pendingTokenRequests (mgr w) !! k0 = Some (SlotPromise pid)).
  { intros k0 Hk0. apply Hkey; [exact Hk0|]. intros []. }
  split; [destruct Heff as [Hportal _]; congruence|].
  intros pid' Pr'. rewrite resume_promises. intros Hlook.
  destruct (decide (pid' = pid)) as [->|Hne].
  - assert (Hlt : (pid < List.length (promises w))%nat)
      by (eapply lookup_lt_Some; exact Hpid).
    rewrite list_lookup_insert_eq in Hlook by exact Hlt.
    injection Hlook as <-. cbn [p_key p_state]. split; [|exact Hlater].
    intros key' -> Hunres.
    destruct Heff as (_ & [[(_ & -> & _) _] | (k0 & v & _ & Hdone & _)]).
    + apply Hkey0. reflexivity.
    + exfalso. apply Hunres. unfold is_resolved. cbn. rewrite Hdone. exact Logic.I.
  - rewrite list_lookup_insert_ne in Hlook by congruence.
    destruct (Hall pid' Pr' Hlook) as [Hkey' Hk']. split; [|exact Hk'].
    intros key' Hkey'' Hunres.
    eapply run_effect_slot; [exact Heff|exact Hkey0|exact Hne|].
    apply Hkey'; assumption.
Qed.

Lemma numbered_lookup {A : Type} (l : list A) (i : nat) (x : A) :
  (i, x) ∈ numbered l → l !! i = Some x.
Proof.
  unfold numbered. intros (j & y & Heq & Hl)%elem_of_lookup_imap_1.
  injection Heq as -> ->. exact Hl.
Qed.

Lemma numbered_NoDup {A : Type} (l : list A) : NoDup (numbered l).*1.
Proof.
  unfold numbered. rewrite fmap_imap.
  rewrite (imap_ext _ (λ j _, j)) by reflexivity.
  rewrite (imap_seq_0 l (λ j, j)), list_fmap_id. apply NoDup_seq.
Qed.

(** What every resumption preserves, waking preserves. *)
Lemma wake_preserves (Φ : World → Prop) (on : Wait) (reply : Result Reply) :
  (∀ w pid key on' k,
     Φ w →
     promises w !! pid = Some {| p_key := key; p_state := Waiting on' k |} →
     Φ (resume pid key k reply w)) →
  ∀ waiters w,
    Φ w →
    NoDup waiters.*1 →
    (∀ pid Pr, (pid, Pr) ∈ waiters → promises w !! pid = Some Pr) →
    Φ (wake on reply waiters w).
Proof.
  intros Hstep. induction waiters as [|[pid Pr] rest IH]; intros w HΦ Hnd Hin;
    cbn [wake]; [exact HΦ|].
  apply NoDup_cons in Hnd as [Hfresh Hnd].
  assert (Hrest : ∀ pid' Pr', (pid', Pr') ∈ rest → promises w !! pid' = Some Pr')
    by (intros; apply Hin; right; assumption).
  destruct Pr as [key [r|on' k]] eqn:HPr; cbn [p_state p_key];
    [apply IH; assumption|].
  destruct (wait_eqb on on'); [|apply IH; assumption].
  apply IH; [|exact Hnd|].
  - eapply Hstep; [exact HΦ|]. apply Hin. left.
  - intros pid' Pr' Hin'. rewrite resume_promises.
    rewrite list_lookup_insert_ne; [apply Hrest, Hin'|].
    intros <-. apply Hfresh.
    apply list_elem_of_fmap. exists (pid, Pr'). split; [reflexivity|exact Hin'].
Qed.

Lemma wake_consistent (P : string) (on : Wait) (reply : Result Reply)
    (w : World) :
  consistent P w → consistent P (wake on reply (numbered (promises w)) w).
Proof.
  intros Hc.
  apply (wake_preserves (consistent P)); [|exact Hc|apply numbered_NoDup|].
  - intros w' pid key on' k Hc' Hpid. eapply resume_consistent; eassumption.
  - intros pid Pr. apply numbered_lookup.
Qed.

Lemma respond_consistent (P : string) (id : nat) (reply : Result Reply)
    (w : World) :
  consistent P w → consistent P (respond id reply w).
Proof.
  intros Hc. unfold respond.
  destruct (_pendingPortalRequest (mgr w)) as [[id'|e]|];
    try (apply wake_consistent; exact Hc).
  destruct (Nat.eqb id id'); [|apply wake_consistent; exact Hc].
  apply (wake_consistent P OnPortal reply (with_mgr _ w)).
  destruct Hc as [HP Hall].
  split; [destruct reply; exact HP|].
  intros pid Pr Hpid. specialize (Hall pid Pr Hpid).
  destruct reply; exact Hall.
Qed.

(** A new chain that keeps the contract of its key, stored under a key that
    held no promise, leaves the world consistent. *)
Lemma spawn_consistent (P : string) (key : option string) (body : Async Value)
    (w : World) :
  consistent P w →
  holds (token_contract key) (λ m, portal m = P) body (mgr w) None (mgr w) [] →
  (∀ k, key = Some k →
        pending_promise (_pendingTokenRequests (mgr w) !! k) = None) →
  let p := (spawn key body w).1 in
  let w' := (spawn key body w).2 in
  p = List.length (promises w)
  ∧ untouched (mgr w) (mgr w')
  ∧ consistent P match key with
                 | Some k => store_pending k p w'
                 | None => w'
                 end.
Proof.
  intros [HP Hall] Hbody Hfree. cbv zeta. unfold spawn.
  pose proof (run_promises body w) as Hprom.
  destruct (run_holds _ _ _ w _ _ _ Hbody) as (cs' & _ & Hq).
  destruct (run body w) as [w1 st]. cbn [fst snd] in *.
  assert (Hu : untouched (mgr w) (mgr w1)).
  { destruct st as [[v|e]|on k]; destruct key; cbn in Hq;
      try exact Hq; try (destruct Hq as [Hq _]; exact Hq).
    destruct Hq as [[? ?] _]. discriminate. }
  destruct Hu as (Hportal & Hpend & Hfed).
  split; [congruence|]. split; [repeat split; assumption|].
  assert (Hlater : match st with
                   | Done _ => True
                   | Waiting _ k =>
                       ∀ reply m1, portal m1 = P →
                         holds (token_contract key) (λ m, portal m = P)
                               (k reply) m1 (Some reply) m1 []
                   end).
  { destruct st as [r|on k]; [exact Logic.I|]. destruct Hq as [_ Hq]. exact Hq. }
  destruct key as [k0|].
  - specialize (Hfree k0 eq_refl).
    split; [cbn; congruence|].
    cbn [promises store_pending with_mgr with_promises mgr].
    intros pid Pr Hlook. rewrite Hprom in Hlook.
    apply lookup_app_Some in Hlook as [Hold | [Hge Hnew]].
    + destruct (Hall pid Pr Hold) as [Hkey Hk]. split; [|exact Hk].
      intros key' Hkey' Hunres. specialize (Hkey key' Hkey' Hunres). cbn.
      rewrite Hpend. rewrite lookup_insert_ne; [exact Hkey|].
      intros <-. rewrite Hkey in Hfree. discriminate.
    + destruct (pid - List.length (promises w))%nat eqn:Hd;
        [|destruct n; discriminate].
      injection Hnew as <-. cbn [p_state p_key]. split; [|exact Hlater].
      intros key' [= <-] _. cbn. rewrite Hprom.
      replace pid with (List.length (promises w)) by lia.
      apply lookup_insert_eq.
  - split; [cbn; congruence|]. cbn [promises with_promises mgr].
    intros pid Pr Hlook. rewrite Hprom in Hlook.
    apply lookup_app_Some in Hlook as [Hold | [Hge Hnew]].
    + destruct (Hall pid Pr Hold) as [Hkey Hk]. split; [|exact Hk].
      intros key' Hkey' Hunres. rewrite Hpend. apply Hkey; assumption.
    + destruct (pid - List.length (promises w))%nat eqn:Hd;
        [|destruct n; discriminate].
      injection Hnew as <-. cbn [p_state p_key]. split; [|exact Hlater].
      intros key' [=].
Qed.

Lemma resolved_consistent (P : string) (t : Token) (w : World) :
  consistent P w → consistent P (resolved t w).2.
Proof.
  intros Hc.
  destruct (spawn_consistent P None (Ret (VToken t)) w Hc) as (_ & _ & H).
  - cbn. repeat split; reflexivity.
  - intros k [=].
  - exact H.
Qed.

Lemma getTokenForServer_consistent (P url : string)
    (requestOptions : option RequestOptions) (w : World) (p : nat) (w' : World) :
  consistent P w →
  getTokenForServer url requestOptions w = Some (p, w') →
  consistent P w'.
Proof.
  intros Hc. unfold getTokenForServer.
  destruct (getServerRootUrl url) as [root|]; [|discriminate].
  destruct (unexpired _ _).
  - intros [= <- <-].
    exact (resolved_consistent P
             (federatedServers (mgr w) !! root ≫= st_token) w Hc).
  - destruct (pending_promise _) as [q|] eqn:Hfree.
    + intros [= <- <-]. exact Hc.
    + destruct (spawn_consistent P (Some root)
                  (getTokenForServer_chain url root requestOptions) w Hc)
        as (_ & _ & H).
      * apply getTokenForServer_chain_contract.
      * intros k [= <-]. exact Hfree.
      * destruct (spawn _ _ w). intros [= <- <-]. exact H.
Qed.

Lemma getFreshToken_consistent (P : string)
    (requestOptions : option RequestOptions) (w : World) :
  consistent P w → consistent P (getFreshToken requestOptions w).2.
Proof.
  intros Hc. unfold getFreshToken.
  destruct (token_fresh _ _); [apply resolved_consistent, Hc|].
  destruct (pending_promise _) as [q|] eqn:Hfree; [exact Hc|].
  destruct (spawn_consistent P (Some (portal (mgr w)))
              (getFreshToken_chain requestOptions) w Hc)
    as (_ & _ & H).
  - destruct Hc as [HP _]. rewrite HP.
    apply getFreshToken_chain_contract, HP.
  - intros k [= <-]. exact Hfree.
  - destruct (spawn _ _ w). exact H.
Qed.

Lemma step_consistent (P : string) (e : Event) (w : World) :
  consistent P w → consistent P (step e w).
Proof.
  intros Hc. destruct e as [url ro|ro|ro|t e|id reply|ms]; cbn [step].
  - destruct (getTokenForServer url ro w) as [[p w']|] eqn:H; [|exact Hc].
    eapply getTokenForServer_consistent; eassumption.
  - apply getFreshToken_consistent, Hc.
  - destruct (spawn_consistent P None
                (refreshCredentials ro;;; Ret VThis)%async w Hc)
      as (_ & _ & H).
    + apply refreshCredentials_contract.
    + intros k [=].
    + exact H.
  - exact Hc.
  - apply respond_consistent, Hc.
  - exact Hc.
Qed.

Lemma steps_consistent (P : string) (es : list Event) (w : World) :
  consistent P w → consistent P (steps es w).
Proof.
  revert w. induction es as [|e es IH]; intros w Hc; [exact Hc|].
  apply IH, step_consistent, Hc.
Qed.

Lemma start_consistent (m : Manager) (t : Z) :
  consistent (portal m) (start m t).
Proof. split; [reflexivity|]. intros pid Pr Hl. discriminate. Qed.

(** At any time at most one promise waits under a key. *)
Lemma consistent_one_in_flight (P : string) (w : World)
    (p q : nat) (Pp Pq : Promise) (key : string) :
  consistent P w →
  promises w !! p = Some Pp → p_key Pp = Some key → is_waiting Pp →
  promises w !! q = Some Pq → p_key Pq = Some key → is_waiting Pq →
  p = q.
Proof.
  intros [_ Hall] Hp Hkp Hwp Hq Hkq Hwq.
  destruct (Hall p Pp Hp) as [H1 _]. destruct (Hall q Pq Hq) as [H2 _].
  unfold is_waiting, is_resolved in *.
  destruct (p_state Pp); [contradiction|].
  destruct (p_state Pq); [contradiction|].
  specialize (H1 key Hkp (λ x, x)). specialize (H2 key Hkq (λ x, x)).
  congruence.
Qed.


(** ** What a step does to the caches *)

Lemma tracks_refl (P : string) (w : World) : consistent P w → tracks P w w.
Proof.
  intros Hc. split; [exact Hc|]. split; [|split].
  - split; [reflexivity|]. intros pid Pr Pr' H1 H2.
    rewrite H1 in H2. injection H2 as <-. auto.
  - intros root Hne. congruence.
  - intros pid Pr Pr' key v H1 Hw _ H2 Hd.
    rewrite H1 in H2. injection H2 as <-.
    unfold is_waiting in Hw. rewrite Hd in Hw. contradiction.
Qed.

Lemma resume_tracks (P : string) (w0 : World) (pid : nat)
    (key : option string) (on : Wait) (k : Result Reply → Async Value)
    (reply : Result Reply) (w : World) :
  tracks P w0 w →
  promises w !! pid = Some {| p_key := key; p_state := Waiting on k |} →
  tracks P w0 (resume pid key k reply w).
Proof.
  intros (Hc & [Hlen Hev] & Hwr & Hcl) Hpid.
  destruct (resume_effect P pid key on k reply w Hc Hpid) as [Heff _].
  pose proof (resume_consistent P pid key on k reply w Hc Hpid) as Hc'.
  assert (Hlt : (pid < List.length (promises w))%nat)
    by (eapply lookup_lt_Some; exact Hpid).
  destruct (lookup_lt_is_Some_2 (promises w0) pid) as [Pr0 HPr0]; [lia|].
  destruct (Hev pid Pr0 _ HPr0 Hpid) as (Hkey0 & Hwait0 & _).
  cbn in Hkey0. specialize (Hwait0 Logic.I).
  split; [exact Hc'|]. split; [|split].
  - split; [rewrite resume_promises, length_insert; exact Hlen|].
    intros pid' Pr Pr' H1 H2. rewrite resume_promises in H2.
    destruct (decide (pid' = pid)) as [->|Hne].
    + rewrite list_lookup_insert_eq in H2 by exact Hlt. injection H2 as <-.
      rewrite HPr0 in H1. injection H1 as <-. cbn [p_key].
      split; [exact Hkey0|]. split; [intros _; exact Hwait0|].
      intros Hn. contradiction.
    + rewrite list_lookup_insert_ne in H2 by congruence.
      apply (Hev pid' Pr Pr' H1 H2).
  - intros root Hne. rewrite resume_promises.
    assert (Hold : federatedServers (mgr (resume pid key k reply w)) !! root
                   = federatedServers (mgr w) !! root →
              ∃ pid1 Pr1 entry,
                promises w0 !! pid1 = Some Pr1 ∧ p_key Pr1 = Some root
                ∧ is_waiting Pr1
                ∧ <[pid := {| p_key := key; p_state := (run (k reply) w).2 |}]>
                    (promises w) !! pid1
                  = Some {| p_key := Some root;
                            p_state := Done (Ok (VToken (st_token entry))) |}
                ∧ federatedServers (mgr (resume pid key k reply w)) !! root
                  = Some entry).
    { intros Hsame. rewrite Hsame in Hne.
      destruct (Hwr root Hne) as (pid1 & Pr1 & entry & H1 & H2 & H3 & H4 & H5).
      exists pid1, Pr1, entry. repeat split; try assumption; [|congruence].
      rewrite list_lookup_insert_ne; [exact H4|].
      intros <-. rewrite Hpid in H4. discriminate. }
    destruct Heff as (_ & [[(_ & _ & Hfed) _] | (k0 & v & -> & Hdone & Hst)]).
    + apply Hold. rewrite Hfed. reflexivity.
    + destruct Hst as [(entry & Hfed & _ & ->) | (Hfed & _)].
      * destruct (decide (root = k0)) as [->|Hroot].
        -- exists pid, Pr0, entry.
           split; [exact HPr0|]. split; [symmetry; exact Hkey0|].
           split; [exact Hwait0|]. split.
           ++ rewrite list_lookup_insert_eq by exact Hlt. rewrite Hdone.
              reflexivity.
           ++ rewrite Hfed. apply lookup_insert_eq.
        -- apply Hold. rewrite Hfed. apply lookup_insert_ne. congruence.
      * apply Hold. rewrite Hfed. reflexivity.
  - intros pid' Pr Pr' key' v H1 Hw Hk H2 Hd. rewrite resume_promises in H2.
    destruct (decide (pid' = pid)) as [->|Hne].
    + rewrite list_lookup_insert_eq in H2 by exact Hlt. injection H2 as <-.
      cbn in Hd. rewrite HPr0 in H1. injection H1 as <-.
      destruct Heff as (_ & [[_ Hno] | (k0 & v0 & Hk0 & _ & Hst)]).
      * exfalso. apply Hno. exists v. split; [exact Hd|].
        rewrite Hkey0, Hk. eexists. reflexivity.
      * assert (key' = k0) by congruence. subst key'.
        destruct Hst as [(entry & _ & -> & _) | (_ & -> & _)].
        -- rewrite lookup_delete_eq. reflexivity.
        -- rewrite lookup_insert_eq. reflexivity.
    + rewrite list_lookup_insert_ne in H2 by congruence.
      pose proof (Hcl pid' Pr Pr' key' v H1 Hw Hk H2 Hd) as Hnone.
      destruct Heff as (_ & [[(_ & -> & _) _] | (k0 & v0 & _ & _ & Hst)]);
        [exact Hnone|].
      destruct Hst as [(entry & _ & -> & _) | (_ & -> & _)].
      * destruct (decide (key' = k0)) as [->|Hk'].
        -- rewrite lookup_delete_eq. reflexivity.
        -- rewrite lookup_delete_ne by congruence. exact Hnone.
      * destruct (decide (key' = k0)) as [->|Hk'].
        -- rewrite lookup_insert_eq. reflexivity.
        -- rewrite lookup_insert_ne by congruence. exact Hnone.
Qed.

Lemma wake_tracks (P : string) (w0 : World) (on : Wait)
    (reply : Result Reply) (w : World) :
  tracks P w0 w → tracks P w0 (wake on reply (numbered (promises w)) w).
Proof.
  intros Ht.
  apply (wake_preserves (tracks P w0)); [|exact Ht|apply numbered_NoDup|].
  - intros w' pid key on' k Ht' Hpid. eapply resume_tracks; eassumption.
  - intros pid Pr. apply numbered_lookup.
Qed.

Lemma respond_tracks (P : string) (id : nat) (reply : Result Reply)
    (w : World) :
  consistent P w → tracks P w (respond id reply w).
Proof.
  intros Hc. unfold respond.
  destruct (_pendingPortalRequest (mgr w)) as [[id'|e]|];
    try (apply wake_tracks, tracks_refl; exact Hc).
  destruct (Nat.eqb id id'); [|apply wake_tracks, tracks_refl; exact Hc].
  apply (wake_tracks P w OnPortal reply (with_mgr _ w)).
  destruct (tracks_refl P w Hc) as (_ & Hev & Hwr & Hcl).
  split; [|split; [exact Hev|split]].
  - destruct Hc as [HP Hall]. split; [destruct reply; exact HP|].
    intros pid Pr Hpid. specialize (Hall pid Pr Hpid).
    destruct reply; exact Hall.
  - intros root Hne. exfalso. apply Hne. destruct reply; reflexivity.
  - intros pid Pr Pr' key v H1 Hw Hk H2 Hd. cbn in H2.
    rewrite H1 in H2. injection H2 as <-.
    unfold is_waiting in Hw. rewrite Hd in Hw. contradiction.
Qed.

Lemma spawn_promises (key : option string) (body : Async Value) (w : World) :
  promises (spawn key body w).2
  = (promises w ++ [{| p_key := key; p_state := (run body w).2 |}])%list.
Proof.
  unfold spawn. rewrite <- (run_promises body w).
  destruct (run body w). reflexivity.
Qed.

(** A step that keeps the promises there are and the federated servers
    resolves nothing and writes nothing. *)
Lemma quiet_step (w w' : World) :
  (∀ pid Pr, promises w !! pid = Some Pr → promises w' !! pid = Some Pr) →
  federatedServers (mgr w') = federatedServers (mgr w) →
  written_by_resolution w w' ∧ cleared_by_resolution w w'.
Proof.
  intros Hprom Hfed. split.
  - intros root Hne. rewrite Hfed in Hne. congruence.
  - intros pid Pr Pr' key v H1 Hw _ H2 Hd.
    rewrite (Hprom pid Pr H1) in H2. injection H2 as <-.
    unfold is_waiting in Hw. rewrite Hd in Hw. contradiction.
Qed.

Lemma spawn_quiet (P : string) (key : option string) (body : Async Value)
    (w : World) :
  consistent P w →
  holds (token_contract key) (λ m, portal m = P) body (mgr w) None (mgr w) [] →
  (∀ k, key = Some k →
        pending_promise (_pendingTokenRequests (mgr w) !! k) = None) →
  (∀ pid Pr, promises w !! pid = Some Pr →
             promises (spawn key body w).2 !! pid = Some Pr)
  ∧ federatedServers (mgr (spawn key body w).2) = federatedServers (mgr w).
Proof.
  intros Hc Hbody Hfree.
  destruct (spawn_consistent P key body w Hc Hbody Hfree)
    as (_ & (_ & _ & Hfed) & _).
  split; [|exact Hfed].
  intros pid Pr Hl. rewrite spawn_promises. apply lookup_app_l_Some, Hl.
Qed.

(** What a step does to the caches, from a consistent world. *)
Lemma step_tracks (P : string) (e : Event) (w : World) :
  consistent P w →
  written_by_resolution w (step e w) ∧ cleared_by_resolution w (step e w).
Proof.
  intros Hc. destruct e as [url ro|ro|ro|t e|id reply|ms]; cbn [step].
  - unfold getTokenForServer.
    destruct (getServerRootUrl url) as [root|];
      [|apply quiet_step; [auto|reflexivity]].
    destruct (unexpired _ _).
    + apply quiet_step; [|reflexivity].
      intros pid Pr Hl. cbn. apply lookup_app_l_Some, Hl.
    + destruct (pending_promise _) as [q|] eqn:Hfree;
        [apply quiet_step; [auto|reflexivity]|].
      destruct (spawn_quiet P (Some root)
                  (getTokenForServer_chain url root ro) w Hc) as [Hp Hf].
      * apply getTokenForServer_chain_contract.
      * intros k [= <-]. exact Hfree.
      * destruct (spawn _ _ w) as [p w']. apply quiet_step; assumption.
  - unfold getFreshToken. destruct (token_fresh _ _).
    + apply quiet_step; [|reflexivity].
      intros pid Pr Hl. cbn. apply lookup_app_l_Some, Hl.
    + destruct (pending_promise _) as [q|] eqn:Hfree;
        [apply quiet_step; [auto|reflexivity]|].
      destruct (spawn_quiet P (Some (portal (mgr w)))
                  (getFreshToken_chain ro) w Hc) as [Hp Hf].
      * destruct Hc as [HP _]. rewrite HP.
        apply getFreshToken_chain_contract, HP.
      * intros k [= <-]. exact Hfree.
      * destruct (spawn _ _ w) as [p w']. apply quiet_step; assumption.
  - destruct (spawn_quiet P None (refreshCredentials ro;;; Ret VThis)%async
                w Hc) as [Hp Hf].
    + apply refreshCredentials_contract.
    + intros k [=].
    + apply quiet_step; assumption.
  - apply quiet_step; [auto|reflexivity].
  - destruct (respond_tracks P id reply w Hc) as (_ & _ & Hwr & Hcl).
    split; assumption.
  - apply quiet_step; [auto|reflexivity].
Qed.


(** ** Fresh tokens *)

Lemma getFreshToken_chain_fresh_contract
    (requestOptions : option RequestOptions) (m : Manager) :
  holds fresh_contract (λ _, True) (getFreshToken_chain requestOptions)
        m None m [].
Proof.
  unfold_chains. crunch; unfold fresh_contract, calls_of_runs;
    (split; [reflexivity|]); try exact Logic.I.
  all: eexists; repeat split; apply lookup_insert_eq.
Qed.

(** However a chain comes to settle, the run in which it does keeps its
    contract, and so did every run before. *)
Lemma settles_holds {A : Type} (Q : Contract A) (p : Async A)
    (r : option (Result Reply)) (w : World)
    (rl : option (Result Reply)) (wl w' : World) (res : Result A)
    (cs : list Call) :
  settles p r w rl wl w' res cs →
  holds Q (λ _, True) p (mgr w) r (mgr w) [] →
  ∃ cl, calls w' = (calls wl ++ cl)%list
        ∧ Q (mgr wl) rl (mgr w') cl (Settles res).
Proof.
  induction 1 as [p r w w' res cs Hrun Hcalls
                 |p r w w1 on k cs1 reply w2 rl wl w' res cs2 Hrun Hcalls _ IH];
    intros Hh.
  - destruct (run_holds _ _ _ w _ _ _ Hh) as (cs' & Hc & Hq).
    rewrite Hrun in Hc, Hq. cbn in Hc, Hq. exists cs'. split; assumption.
  - destruct (run_holds _ _ _ w _ _ _ Hh) as (cs' & _ & Hq).
    rewrite Hrun in Hq. cbn in Hq. destruct Hq as [_ Hlater].
    apply IH, Hlater. exact Logic.I.
Qed.


Lemma token_fresh_expired (m : Manager) (t e : Z) :
  tokenExpires m = Some e → e ≤ t → token_fresh m t = false.
Proof.
  intros He Hle. unfold token_fresh. rewrite He.
  replace (t <? e) with false by (symmetry; apply Z.ltb_ge; exact Hle).
  apply andb_false_r.
Qed.


(** ** Pending token requests *)

Lemma getTokenForServer_joins (url root : string)
    (requestOptions : option RequestOptions) (w : World) (p : nat) :
  getServerRootUrl url = Some root →
  unexpired (federatedServers (mgr w) !! root) (now w) = false →
  _pendingTokenRequests (mgr w) !! root = Some (SlotPromise p) →
  getTokenForServer url requestOptions w = Some (p, w).
Proof.
  intros Hroot Hexp Hpend. unfold getTokenForServer.
  rewrite Hroot, Hexp, Hpend. reflexivity.
Qed.

Lemma getFreshToken_joins
    (requestOptions : option RequestOptions) (w : World) (p : nat) :
  token_fresh (mgr w) (now w) = false →
  _pendingTokenRequests (mgr w) !! portal (mgr w) = Some (SlotPromise p) →
  getFreshToken requestOptions w = (p, w).
Proof.
  intros Hfresh Hpend. unfold getFreshToken.
  rewrite Hfresh, Hpend. reflexivity.
Qed.

(** A promise that was stored under a key and then rejected stays under
    that key for good. *)
Lemma rejected_stays_pending (es : list Event) (m : Manager) (t : Z)
    (p : nat) (Pp : Promise) (key : string) (e : Error) :
  let w := steps es (start m t) in
  promises w !! p = Some Pp → p_key Pp = Some key →
  p_state Pp = Done (Err e) →
  _pendingTokenRequests (mgr w) !! key = Some (SlotPromise p).
Proof.
  cbv zeta. intros Hp Hk He.
  destruct (steps_consistent (portal m) es _ (start_consistent m t))
    as [_ Hall].
  destruct (Hall p Pp Hp) as [Hslot _]. apply Hslot; [exact Hk|].
  unfold is_resolved. rewrite He. intros [].
Qed.

(** A promise that waited under a key and that a step resolved leaves no
    promise under that key. *)
Lemma resolved_clears_pending (es : list Event) (m : Manager) (t : Z)
    (e : Event) :
  let w := steps es (start m t) in
  cleared_by_resolution w (step e w).
Proof.
  cbv zeta.
  apply (step_tracks (portal m)), steps_consistent, start_consistent.
Qed.

(** C2.  In every world that calls, replies and time lead to from a new
    manager: at most one promise waits under a key, and it is the promise
    that [_pendingTokenRequests] holds for that key; a call of
    [getTokenForServer], or of [getFreshToken] for the portal, that finds a
    promise under its key (and no cached token that is still good, which it
    would answer with) returns that very promise and leaves the world as it
    is: no request, no new promise.  Callers that hold the same promise see
    the same outcome, whatever it will be. *)
Theorem pending_requests_deduplicated
    (es : list Event) (m : Manager) (t : Z) :
  let w := steps es (start m t) in
  (∀ p q Pp Pq key,
     promises w !! p = Some Pp → p_key Pp = Some key → is_waiting Pp →
     promises w !! q = Some Pq → p_key Pq = Some key → is_waiting Pq →
     p = q)
  ∧ (∀ p Pp key,
       promises w !! p = Some Pp → p_key Pp = Some key → is_waiting Pp →
       _pendingTokenRequests (mgr w) !! key = Some (SlotPromise p))
  ∧ (∀ url root requestOptions p,
       getServerRootUrl url = Some root →
       unexpired (federatedServers (mgr w) !! root) (now w) = false →
       _pendingTokenRequests (mgr w) !! root = Some (SlotPromise p) →
       getTokenForServer url requestOptions w = Some (p, w))
  ∧ (∀ requestOptions p,
       token_fresh (mgr w) (now w) = false →
       _pendingTokenRequests (mgr w) !! portal (mgr w) = Some (SlotPromise p) →
       getFreshToken requestOptions w = (p, w)).
Proof.
  cbv zeta.
  pose proof (steps_consistent (portal m) es _ (start_consistent m t)) as Hc.
  split; [|split; [|split]].
  - intros p q Pp Pq key. apply (consistent_one_in_flight (portal m)), Hc.
  - intros p Pp key Hp Hk Hw. destruct Hc as [_ Hall].
    destruct (Hall p Pp Hp) as [Hslot _]. apply Hslot; [exact Hk|].
    unfold is_waiting, is_resolved in *. destruct (p_state Pp); tauto.
  - intros url root ro p. apply getTokenForServer_joins.
  - intros ro p. apply getFreshToken_joins.
Qed.

(** C1 (where the code departs from it).  A manager whose token has expired
    and that has nothing to refresh it with is asked for a fresh token: the
    promise is rejected with [TOKEN_REFRESH_FAILED], yet it stays in
    [_pendingTokenRequests] under the portal, and the next call is handed
    the same rejected promise: nothing new is started.  Likewise for
    [getTokenForServer] when the request for the portal fails: the promise
    is rejected, stays under the server root, and both the next call and one
    an hour later are handed it again. *)
Theorem rejected_request_stays_pending :
  let (p, w) := stale_asked in
  (promises w !! p ≫= λ P, Some (p_state P))
  = Some (Done (Err no_credentials_error))
  ∧ _pendingTokenRequests (mgr w) !! portal (mgr w) = Some (SlotPromise p)
  ∧ getFreshToken None w = (p, w)
  ∧ (promises gis_asked !! 0%nat ≫= λ P, Some (p_state P))
    = Some (Done (Err network_down))
  ∧ _pendingTokenRequests (mgr gis_asked) !! gis_root = Some (SlotPromise 0)
  ∧ getTokenForServer gis_url None gis_asked = Some (0%nat, gis_asked)
  ∧ getTokenForServer gis_url None (step (Elapse 3600000) gis_asked)
    = Some (0%nat, step (Elapse 3600000) gis_asked).
Proof. vm_compute. repeat split. Qed.

(** ** Federation *)



(** ** Invariants of the manager's state *)

Section Invariants.

(** A property of the manager that each of its assignments keeps; the
    portal's description is assigned to only while no request for it was
    refused. *)
Variable Φ : Manager → Prop.
Hypothesis Φ_token : ∀ t e m, Φ m → Φ (set_token t e m).
Hypothesis Φ_refreshToken : ∀ t e m, Φ m → Φ (set_refreshToken t e m).
Hypothesis Φ_user : ∀ u m, Φ m → Φ (set_user u m).
Hypothesis Φ_federatedServers : ∀ f m, Φ m → Φ (set_federatedServers f m).
Hypothesis Φ_trustedDomains :
  ∀ d m, Φ m → Φ (set_trustedDomains (normalize_domains d) m).
Hypothesis Φ_pendingTokenRequests :
  ∀ p m, Φ m → Φ (set_pendingTokenRequests p m).
Hypothesis Φ_portalInfo :
  ∀ i p m, Φ m →
    (∀ e, _pendingPortalRequest m ≠ Some (PortalRejected e)) →
    Φ (set_portalInfo i p m).

Ltac kept :=
  unfold stable, updateToken; intros;
  repeat first
    [ assumption
    | apply Φ_token | apply Φ_refreshToken | apply Φ_user
    | apply Φ_federatedServers | apply Φ_trustedDomains
    | apply Φ_pendingTokenRequests
    | apply Φ_portalInfo; [|intros; congruence] ].

Lemma getTokenForServer_chain_stable
    (url root : string) (requestOptions : option RequestOptions) (m : Manager) :
  holds (stable Φ) (λ _, True)
        (getTokenForServer_chain url root requestOptions) m None m [].
Proof. unfold_chains. crunch; kept. Qed.

Lemma getFreshToken_chain_stable
    (requestOptions : option RequestOptions) (m : Manager) :
  holds (stable Φ) (λ _, True) (getFreshToken_chain requestOptions) m None m [].
Proof. unfold_chains. crunch; kept. Qed.

Lemma refreshCredentials_stable
    (requestOptions : option RequestOptions) (m : Manager) :
  holds (stable Φ) (λ _, True)
        (refreshCredentials requestOptions;;; Ret VThis)%async m None m [].
Proof. unfold_chains. crunch; kept. Qed.

Lemma resume_steady (w0 : World) (pid : nat) (key : option string) (on : Wait)
    (k : Result Reply → Async Value) (reply : Result Reply) (w : World) :
  kept_since Φ w0 w →
  promises w !! pid = Some {| p_key := key; p_state := Waiting on k |} →
  kept_since Φ w0 (resume pid key k reply w).
Proof.
  intros [Hall HΦ] Hpid.
  pose proof (Hall pid _ Hpid) as Hk. cbn in Hk.
  destruct (run_holds _ _ _ w _ _ _ (Hk reply (mgr w))) as (cs' & _ & Hq).
  split.
  - intros pid' Pr'. rewrite resume_promises. intros Hlook.
    destruct (decide (pid' = pid)) as [->|Hne].
    + rewrite list_lookup_insert_eq in Hlook
        by (eapply lookup_lt_Some; exact Hpid).
      injection Hlook as <-. cbn [p_state].
      destruct ((run (k reply) w).2); [exact Logic.I|].
      intros reply' m1. apply Hq. exact Logic.I.
    + rewrite list_lookup_insert_ne in Hlook by congruence.
      apply (Hall pid' Pr' Hlook).
  - intros H0. rewrite resume_mgr.
    destruct ((run (k reply) w).2); [|destruct Hq as [Hq _]];
      apply Hq, HΦ, H0.
Qed.

Lemma wake_steady (w0 : World) (on : Wait) (reply : Result Reply) (w : World) :
  kept_since Φ w0 w → kept_since Φ w0 (wake on reply (numbered (promises w)) w).
Proof.
  intros Hs.
  apply (wake_preserves (kept_since Φ w0)); [|exact Hs|apply numbered_NoDup|].
  - intros w' pid key on' k Hs' Hpid. eapply resume_steady; eassumption.
  - intros pid Pr. apply numbered_lookup.
Qed.

Lemma respond_steady (id : nat) (reply : Result Reply) (w : World) :
  steady Φ w → kept_since Φ w (respond id reply w).
Proof.
  intros Hs. unfold respond.
  assert (H0 : kept_since Φ w w) by (split; [exact Hs|auto]).
  destruct (_pendingPortalRequest (mgr w)) as [[id'|e]|] eqn:Hp;
    try (apply wake_steady; exact H0).
  destruct (Nat.eqb id id'); [|apply wake_steady; exact H0].
  apply (wake_steady w OnPortal reply (with_mgr _ w)).
  split; [exact Hs|]. intros HΦ.
  destruct reply; cbn; kept.
Qed.

Lemma spawn_steady (key : option string) (body : Async Value) (w : World) :
  steady Φ w →
  holds (stable Φ) (λ _, True) body (mgr w) None (mgr w) [] →
  kept_since Φ w (spawn key body w).2.
Proof.
  intros Hall Hbody. unfold spawn.
  pose proof (run_promises body w) as Hprom.
  destruct (run_holds _ _ _ w _ _ _ Hbody) as (cs' & _ & Hq).
  destruct (run body w) as [w1 st]. cbn [fst snd] in *.
  split.
  - cbn [promises with_promises]. intros pid Pr Hlook. rewrite Hprom in Hlook.
    apply lookup_app_Some in Hlook as [Hold | [Hge Hnew]].
    + apply (Hall pid Pr Hold).
    + destruct (pid - List.length (promises w))%nat; [|destruct n; discriminate].
      injection Hnew as <-. cbn [p_state].
      destruct st; [exact Logic.I|].
      intros reply m1. apply Hq. exact Logic.I.
  - cbn. destruct st; [exact Hq|apply Hq].
Qed.

Lemma store_pending_steady (w0 : World) (key : string) (p : nat) (w : World) :
  kept_since Φ w0 w → kept_since Φ w0 (store_pending key p w).
Proof. intros [Hall HΦ]. split; [exact Hall|]. intros H0. cbn. kept. auto. Qed.

Lemma step_steady (e : Event) (w : World) :
  steady Φ w → steady Φ (step e w) ∧ (Φ (mgr w) → Φ (mgr (step e w))).
Proof.
  intros Hs.
  assert (H0 : kept_since Φ w w) by (split; [exact Hs|auto]).
  destruct e as [url ro|ro|ro|t e|id reply|ms]; cbn [step].
  - unfold getTokenForServer.
    destruct (getServerRootUrl url) as [root|]; [|exact H0].
    destruct (unexpired _ _).
    + apply (spawn_steady None); [exact Hs|]. cbn. unfold stable. auto.
    + destruct (pending_promise _); [exact H0|].
      pose proof (spawn_steady (Some root)
                    (getTokenForServer_chain url root ro) w Hs
                    (getTokenForServer_chain_stable url root ro (mgr w))) as H.
      destruct (spawn _ _ w). apply store_pending_steady, H.
  - unfold getFreshToken. destruct (token_fresh _ _).
    + apply (spawn_steady None); [exact Hs|]. cbn. unfold stable. auto.
    + destruct (pending_promise _); [exact H0|].
      pose proof (spawn_steady (Some (portal (mgr w)))
                    (getFreshToken_chain ro) w Hs
                    (getFreshToken_chain_stable ro (mgr w))) as H.
      destruct (spawn _ _ w). apply store_pending_steady, H.
  - apply spawn_steady; [exact Hs|]. apply refreshCredentials_stable.
  - split; [exact Hs|]. intros HΦ. cbn. kept.
  - apply respond_steady, Hs.
  - exact H0.
Qed.

(** What each assignment keeps, every step keeps: once it holds of the
    manager, it holds in every world that calls, replies and time lead
    to. *)
Lemma steps_steady (es : list Event) (w : World) :
  steady Φ w → steady Φ (steps es w) ∧ (Φ (mgr w) → Φ (mgr (steps es w))).
Proof.
  revert w. induction es as [|e es IH]; intros w Hs; [split; [exact Hs|auto]|].
  destruct (step_steady e w Hs) as [Hs' HΦ].
  destruct (IH (step e w) Hs') as [Hs'' HΦ'].
  split; [exact Hs''|]. intros H. apply HΦ', HΦ, H.
Qed.

Lemma start_steady (m : Manager) (t : Z) : steady Φ (start m t).
Proof. intros pid Pr Hl. discriminate. Qed.

End Invariants.

Lemma normalize_domains_https (domains : list string) :
  Forall (λ d, Js.startsWith "https://" d = true) (normalize_domains domains).
Proof.
  unfold normalize_domains. apply List.Forall_forall. intros d Hd.
  apply in_map_iff in Hd as (d0 & <- & _).
  destruct (Js.startsWith "https://" d0) eqn:H; [exact H|reflexivity].
Qed.

Lemma startsWith_trans (a b c : string) :
  Js.startsWith a b = true → Js.startsWith b c = true → Js.startsWith a c = true.
Proof.
  revert b c. induction a as [|x a IH]; intros b c Hab Hbc; [reflexivity|].
  destruct b as [|y b]; [discriminate|]. destruct c as [|z c]; [discriminate|].
  cbn in Hab, Hbc |- *. destruct (ascii_dec x y) as [->|]; [|discriminate].
  destruct (ascii_dec y z) as [->|]; [|discriminate].
  destruct (ascii_dec z z); [|congruence]. eapply IH; eassumption.
Qed.

(** X1.  Whatever is called, whatever the transport replies and however
    much time passes, the manager stays who the constructor made it: no
    method assigns to [clientId], the stored user name, [password],
    [portal], [ssl], [provider], [tokenDuration], [redirectUri] or
    [server]. *)
Theorem identity_never_changes (es : list Event) (m : Manager) (t : Z) :
  same_identity m (mgr (steps es (start m t))).
Proof.
  apply (steps_steady (same_identity m)); try (intros; assumption).
  - apply start_steady.
  - repeat split.
Qed.

(** X2.  A manager that starts with [https://] domains only as trusted
    domains (the constructor starts with none) never trusts another kind:
    whatever happens, [getDomainCredentials] answers ["include"] only for a
    URL that starts with [https://]. *)
Theorem credentials_included_only_over_https
    (es : list Event) (m : Manager) (t : Z) (url : string) :
  all_https m →
  getDomainCredentials (mgr (steps es (start m t))) url = include →
  Js.startsWith "https://" url = true.
Proof.
  intros Hm Hinc.
  assert (Hall : all_https (mgr (steps es (start m t)))).
  { apply (steps_steady all_https); try (intros; assumption).
    - intros d m0 _. apply normalize_domains_https.
    - apply start_steady. }
  unfold all_https in Hall.
  unfold getDomainCredentials in Hinc.
  destruct (trustedDomains _) as [|d ds]; [discriminate|].
  destruct (existsb _ _) eqn:Hex; [|discriminate].
  apply existsb_exists in Hex as (d' & Hin & Hpre).
  eapply startsWith_trans; [|exact Hpre].
  rewrite List.Forall_forall in Hall. apply Hall. exact Hin.
Qed.
Lemma startsWith_prefix (p s : string) :
  Js.startsWith p s = true → ∃ rest, s = (p ++ rest)%string.
Proof.
  revert s. induction p as [|a p IH]; intros s H; [exists s; reflexivity|].
  destruct s as [|b s]; [discriminate|]. cbn [Js.startsWith] in H.
  destruct (ascii_dec a b) as [->|]; [|discriminate].
  destruct (IH s H) as [rest ->]. exists rest. reflexivity.
Qed.

Lemma https_is_not_http (d : string) :
  Js.startsWith "https://" d = true → Js.startsWith "http://" d = false.
Proof. intros [rest ->]%startsWith_prefix. reflexivity. Qed.

(** X3.  The trusted domains that [fetchAuthorizedDomains] derives from the
    portal's [authorizedCrossOriginDomains] all start with [https://] and
    none with [http://], and deriving them again from the result changes
    nothing. *)
Theorem normalize_domains_idempotent (domains : list string) :
  (∀ d, In d (normalize_domains domains) →
        Js.startsWith "https://" d = true ∧ Js.startsWith "http://" d = false)
  ∧ normalize_domains (normalize_domains domains) = normalize_domains domains.
Proof.
  pose proof (normalize_domains_https domains) as Hall.
  rewrite List.Forall_forall in Hall. split.
  - intros d Hd. split; [apply Hall, Hd|apply https_is_not_http, Hall, Hd].
  - revert Hall. generalize (normalize_domains domains). intros l Hl.
    unfold normalize_domains. induction l as [|d l IH]; [reflexivity|].
    assert (Hd : Js.startsWith "https://" d = true) by (apply Hl; left; reflexivity).
    rewrite filter_cons_True by (apply https_is_not_http, Hd).
    cbn [map]. rewrite Hd. f_equal. apply IH. intros x Hx. apply Hl. right. exact Hx.
Qed.

(** ** The outcomes of the chains *)

Ltac settled_ok :=
  eexists _, _; do 5 (split; [reflexivity|]);
  first [left; reflexivity | right; repeat split; reflexivity].

Ltac settled_err :=
  first
    [ left; eexists; split; [reflexivity|cbn; auto 6]
    | right; left; eexists; reflexivity
    | right; right; left; reflexivity
    | right; right; right; first [assumption | reflexivity] ].

Lemma getTokenForServer_chain_server_contract
    (url root : string) (requestOptions : option RequestOptions) (m : Manager) :
  holds (server_contract root) (λ _, True)
        (getTokenForServer_chain url root requestOptions) m None m [].
Proof.
  unfold_chains. crunch; try exact Logic.I;
    first [settled_ok | settled_err].
Qed.


Lemma getFreshToken_chain_fresh_expiry_contract
    (requestOptions : option RequestOptions) (m : Manager) :
  holds fresh_expiry_contract (λ _, True) (getFreshToken_chain requestOptions)
        m None m [].
Proof.
  unfold_chains. crunch; unfold fresh_expiry_contract; try exact Logic.I.
  all: eexists; repeat split; apply lookup_insert_eq.
Qed.

(** X4.  A manager built for one server answers from its cache: while its
    token has not expired, [getTokenForServer] for any URL of that server
    returns a promise already resolved to the token; no request is made and
    the manager is as it was. *)
Theorem server_manager_answers_from_cache
    (o : Options) (m : Manager) (s url root : string) (e t : Z)
    (requestOptions : option RequestOptions) :
  new_manager o = Some m →
  o_server o = Some s → s ≠ "" →
  getServerRootUrl s = Some root →
  getServerRootUrl url = Some root →
  o_tokenExpires o = Some e → t < e →
  ∃ p w',
    getTokenForServer url requestOptions (start m t) = Some (p, w')
    ∧ promises w' !! p
      = Some {| p_key := None; p_state := Done (Ok (VToken (o_token o))) |}
    ∧ requests w' = []
    ∧ calls w' = []
    ∧ mgr w' = m.
Proof.
  intros Hm Hs Hne Hroot Hurl He Hlt.
  unfold new_manager in Hm. rewrite Hs in Hm.
  destruct s as [|c s]; [congruence|]. rewrite Hroot in Hm.
  injection Hm as <-.
  unfold getTokenForServer. rewrite Hurl. cbn [mgr start federatedServers
    set_federatedServers now].
  rewrite lookup_singleton_eq. cbn [unexpired st_expires]. rewrite He.
  replace (t <? e) with true by (symmetry; apply Z.ltb_lt; exact Hlt).
  eexists _, _. split; [reflexivity|]. cbn. repeat split.
Qed.


(** X6.  However the chain of [getTokenForServer] comes to be rejected, the
    error is one that the manager raised itself, with [NOT_FEDERATED],
    [TOKEN_REFRESH_FAILED], [REFRESH_TOKEN_EXCHANGE_FAILED] or
    [GENERATE_TOKEN_FOR_SERVER_FAILED]; or a [TypeError]; or else the very
    failure of the request that the chain was waiting for (the portal's, the
    server's or the owning system's description), passed on as it came. *)
Theorem getTokenForServer_rejections
    (url root : string) (requestOptions : option RequestOptions) (w : World)
    (rl : option (Result Reply)) (wl wf : World) (e : Error) (cs : list Call) :
  settles (getTokenForServer_chain url root requestOptions) None w
          rl wl wf (Err e) cs →
  token_request_error e
  ∨ (∃ message, e = TypeError message)
  ∨ rl = Some (Err e)
  ∨ _pendingPortalRequest (mgr wl) = Some (PortalRejected e).
Proof.
  intros Hs.
  destruct (settles_holds (server_contract root) _ _ _ _ _ _ _ _ Hs
              (getTokenForServer_chain_server_contract url root requestOptions
                 (mgr w)))
    as (cl & _ & H).
  exact H.
Qed.


(** X8.  Whenever the chain of [getFreshToken] resolves, it does so on the
    reply of a token request, and the manager's token and expiry are those
    of the reply.  If that token is not empty and has not expired, the next
    call of [getFreshToken] returns a promise already resolved to it, with
    no request and no refresh; if it is empty or has expired already, the
    next call refreshes again. *)
Theorem refreshed_token_is_fresh
    (requestOptions : option RequestOptions) (w : World)
    (rl : option (Result Reply)) (wl wf : World) (v : Value) (cs : list Call) :
  settles (getFreshToken_chain requestOptions) None w rl wl wf (Ok v) cs →
  ∃ response,
    rl = Some (Ok response)
    ∧ v = VToken (Some (rp_token response))
    ∧ token (mgr wf) = Some (rp_token response)
    ∧ tokenExpires (mgr wf) = Some (rp_expires response)
    ∧ (rp_token response ≠ "" → now wf < rp_expires response →
       ∀ requestOptions', ∃ p w',
         getFreshToken requestOptions' wf = (p, w')
         ∧ promises w' !! p
           = Some {| p_key := None;
                     p_state := Done (Ok (VToken (Some (rp_token response)))) |}
         ∧ requests w' = requests wf
         ∧ calls w' = calls wf
         ∧ mgr w' = mgr wf)
    ∧ (rp_token response = "" ∨ rp_expires response ≤ now wf →
       ∀ requestOptions',
         calls (getFreshToken requestOptions' wf).2
         = (calls wf ++ [refreshCredentials_called])%list).
Proof.
  intros Hs.
  destruct (settles_holds fresh_expiry_contract _ _ _ _ _ _ _ _ Hs
              (getFreshToken_chain_fresh_expiry_contract requestOptions (mgr w)))
    as (cl & _ & response & Hrl & Htok & Hexp & Hv & Hpend).
  exists response. do 4 (split; [assumption|]). split.
  - intros Hne Hlt ro'. unfold getFreshToken.
    assert (Hfresh : token_fresh (mgr wf) (now wf) = true).
    { unfold token_fresh. rewrite Htok, Hexp.
      destruct (rp_token response); [congruence|]. cbn.
      apply Z.ltb_lt, Hlt. }
    rewrite Hfresh. eexists _, _. split; [reflexivity|]. cbn. rewrite Htok.
    split; [apply list_lookup_middle; reflexivity|]. repeat split.
  - intros Hstale ro'. unfold getFreshToken.
    assert (Hfresh : token_fresh (mgr wf) (now wf) = false).
    { unfold token_fresh. rewrite Htok, Hexp.
      destruct Hstale as [-> | Hle]; [reflexivity|].
      replace (now wf <? rp_expires response) with false
        by (symmetry; apply Z.ltb_ge; exact Hle).
      apply andb_false_r. }
    rewrite Hfresh, Hpend. cbn [pending_promise].
    destruct (run_holds _ _ _ wf _ _ _
                (getFreshToken_chain_fresh_contract ro' (mgr wf)))
      as (cs' & Hc & Hq).
    assert (Hcs : cs' = [refreshCredentials_called]).
    { destruct ((run (getFreshToken_chain ro') wf).2);
        [destruct Hq as [Hq _]|destruct Hq as [[Hq _] _]]; exact Hq. }
    subst cs'. unfold spawn.
    destruct (run (getFreshToken_chain ro') wf) as [w1 st]. exact Hc.
Qed.
(** X10.  For a manager whose user name, if it has one, is the stored one,
    and whose [server], if it has one, has a root: when [canRefresh] is
    [true], [refreshCredentials] is not rejected out of hand but makes a
    token request and waits for its reply.  The converse does not hold:
    with a client id and a refresh token but no redirect URI (and no user
    name with password) [canRefresh] is [false], and [refreshCredentials]
    makes the refresh request all the same. *)
Theorem canRefresh_starts_refresh
    (requestOptions : option RequestOptions) (w : World) :
  let m := mgr w in
  _user m = None →
  (∀ s, server m = Some s → s ≠ "" → is_Some (getServerRootUrl s)) →
  (canRefresh m = true →
   ∃ r k w',
     run (refreshCredentials requestOptions) w
     = (w', Waiting (OnRequest (List.length (requests w))) k)
     ∧ requests w' = (requests w ++ [r])%list)
  ∧ (Js.truthy (username m) && Js.truthy (password m) = false →
     Js.truthy (clientId m) = true →
     Js.truthy (refreshToken m) = true →
     Js.truthy (redirectUri m) = false →
     canRefresh m = false
     ∧ ∃ r k w',
         run (refreshCredentials requestOptions) w
         = (w', Waiting (OnRequest (List.length (requests w))) k)
         ∧ requests w' = (requests w ++ [r])%list).
Proof.
  cbv zeta. intros Huser Hserver.
  assert (Hname : username (set_user None (mgr w)) = username (mgr w)).
  { unfold username. cbn. rewrite Huser. reflexivity. }
  assert (Hsends : Js.truthy (username (mgr w)) && Js.truthy (password (mgr w))
                   || Js.truthy (clientId (mgr w))
                      && Js.truthy (refreshToken (mgr w)) = true →
                   ∃ r k w',
                     run (refreshCredentials requestOptions) w
                     = (w', Waiting (OnRequest (List.length (requests w))) k)
                     ∧ requests w' = (requests w ++ [r])%list).
  { intros Hcan. unfold refreshCredentials. cbn -[Js.truthy username].
    rewrite Hname.
    destruct (Js.truthy (username (mgr w)) && Js.truthy (password (mgr w))).
    - unfold refreshWithUsernameAndPassword, request.
      cbn -[Js.truthy username getServerRootUrl].
      destruct (server (mgr w)) as [[|c s]|] eqn:Hs;
        try (cbn; eexists _, _, _; split; reflexivity).
      destruct (Hserver (String c s) eq_refl) as [root Hroot]; [discriminate|].
      rewrite Hroot. cbn. eexists _, _, _; split; reflexivity.
    - cbn [orb] in Hcan. unfold refreshToken in Hcan. rewrite Hcan.
      unfold refreshWithRefreshToken, exchangeRefreshToken, request.
      cbn -[Js.truthy refreshToken_expires_soon].
      destruct (refreshToken_expires_soon _ _);
        cbn; eexists _, _, _; split; reflexivity. }
  split.
  - intros Hcan. apply Hsends. unfold canRefresh in Hcan.
    destruct (Js.truthy (username (mgr w)) && Js.truthy (password (mgr w)));
      [reflexivity|].
    cbn [orb].
    destruct (Js.truthy (clientId (mgr w)) && Js.truthy (refreshToken (mgr w)));
      [reflexivity|discriminate].
  - intros Hup Hc Hr Hd. split.
    + unfold canRefresh. rewrite Hup, Hc, Hr, Hd. reflexivity.
    + apply Hsends. rewrite Hup, Hc, Hr. reflexivity.
Qed.
(** ** Credentials handed over *)


(** ** Server roots as cache keys *)

Lemma lower_char_line_terminator (c : ascii) :
  Js.is_line_terminator (Js.lower_char c) = Js.is_line_terminator c.
Proof. destruct c as [[] [] [] [] [] [] [] []]; reflexivity. Qed.

Lemma lower_char_slash (c : ascii) : Js.lower_char c = "/"%char → c = "/"%char.
Proof.
  destruct c as [[] [] [] [] [] [] [] []]; intros H; try reflexivity;
    vm_compute in H; discriminate.
Qed.

Lemma lower_char_idem (c : ascii) :
  Js.lower_char (Js.lower_char c) = Js.lower_char c.
Proof. destruct c as [[] [] [] [] [] [] [] []]; reflexivity. Qed.

Lemma toLowerCase_idem (s : string) :
  Js.toLowerCase (Js.toLowerCase s) = Js.toLowerCase s.
Proof.
  induction s as [|c s IH]; [reflexivity|]. cbn [Js.toLowerCase].
  rewrite lower_char_idem, IH. reflexivity.
Qed.

Lemma toLowerCase_chars (s : string) (c : ascii) :
  In c (list_ascii_of_string (Js.toLowerCase s)) →
  ∃ c0, In c0 (list_ascii_of_string s) ∧ c = Js.lower_char c0.
Proof.
  induction s as [|a s IH]; cbn; [contradiction|].
  intros [<- | H]; [exists a; auto|].
  destruct (IH H) as (c0 & Hin & ->). exists c0. auto.
Qed.

Lemma dot_plus_chars (s : string) (c : ascii) :
  In c (list_ascii_of_string (dot_plus s)) → Js.is_line_terminator c = false.
Proof.
  induction s as [|a s IH]; cbn; [contradiction|].
  destruct (Js.is_line_terminator a) eqn:Ha; cbn; [contradiction|].
  intros [<- | H]; [exact Ha|apply IH, H].
Qed.

Lemma protocol_here_some (s p rest : string) :
  protocol_here s = Some (p, rest) →
  (p = "https://" ∨ p = "http://") ∧ ∃ x, rest = dot_plus x.
Proof.
  unfold protocol_here.
  destruct (Js.startsWith "https://" s).
  - destruct (dot_plus (Js.drop _ s)) eqn:Hd.
    + destruct (Js.startsWith "http://" s); [|discriminate].
      destruct (dot_plus (Js.drop (String.length "http://") s)) eqn:Hd';
        [discriminate|].
      intros [= <- <-]. split; [right; reflexivity|]. eexists. symmetry. exact Hd'.
    + intros [= <- <-]. split; [left; reflexivity|]. eexists. symmetry. exact Hd.
  - destruct (Js.startsWith "http://" s); [|discriminate].
    destruct (dot_plus (Js.drop (String.length "http://") s)) eqn:Hd';
      [discriminate|].
    intros [= <- <-]. split; [right; reflexivity|]. eexists. symmetry. exact Hd'.
Qed.

Lemma match_protocol_some (s p rest : string) :
  match_protocol s = Some (p, rest) →
  (p = "https://" ∨ p = "http://") ∧ ∃ x, rest = dot_plus x.
Proof.
  induction s as [|c s IH]; cbn [match_protocol].
  - destruct (protocol_here "") as [[p' r']|] eqn:H; [|discriminate].
    intros [= <- <-]. eapply protocol_here_some, H.
  - destruct (protocol_here (String c s)) as [[p' r']|] eqn:H.
    + intros [= <- <-]. eapply protocol_here_some, H.
    + exact IH.
Qed.

Lemma split_head (sep : ascii) (s x : string) (r : list string) :
  Js.split sep s = x :: r → ¬ In sep (list_ascii_of_string x).
Proof.
  revert x r. induction s as [|c s IH]; cbn [Js.split]; intros x r.
  - intros [= <- <-]. intros [].
  - destruct (ascii_dec c sep) as [->|Hne].
    + intros [= <- <-]. intros [].
    + destruct (Js.split sep s) as [|y r'] eqn:Hs.
      * intros [= <- <-]. cbn. intros [?|[]]. congruence.
      * intros [= <- <-]. cbn. intros [?|Hin]; [congruence|].
        exact (IH y r' eq_refl Hin).
Qed.

Lemma chars_app (a b : string) (c : ascii) :
  In c (list_ascii_of_string (a ++ b)) ↔
  In c (list_ascii_of_string a) ∨ In c (list_ascii_of_string b).
Proof.
  induction a as [|x a IH].
  - split; [intros H; right; exact H|intros [[]|H]; exact H].
  - change (list_ascii_of_string (String x a ++ b))
      with (x :: list_ascii_of_string (a ++ b)).
    cbn. rewrite IH. split.
    + intros [H|[H|H]]; [left; left; exact H|left; right; exact H|right; exact H].
    + intros [[H|H]|H]; [left; exact H|right; left; exact H|right; right; exact H].
Qed.

(** X13.  A server root is a key that finds itself: when the root that
    [getServerRootUrl] gives for a URL is left alone by [cleanUrl] and has
    no services segment of its own, [getServerRootUrl] of the root is the
    root again, so that a token cached for the URL is found under the root
    as well. *)
Theorem getServerRootUrl_fixpoint (url root : string) :
  getServerRootUrl url = Some root →
  cleanUrl root = root →
  before_services root = root →
  getServerRootUrl root = Some root.
Proof.
  intros Hroot Hclean Hbefore. unfold getServerRootUrl in Hroot.
  destruct (match_protocol _) as [[protocol domainAndPath]|] eqn:Hmatch;
    [|discriminate].
  destruct (Js.split "/" domainAndPath) as [|domain path] eqn:Hsplit;
    [discriminate|].
  injection Hroot as <-.
  apply match_protocol_some in Hmatch as (Hp & x & ->).
  pose proof (split_head _ _ _ _ Hsplit) as Hslash.
  pose proof (join_split "/" (dot_plus x)) as Hjoin. rewrite Hsplit in Hjoin.
  set (rest := Js.join "/" path) in Hjoin, Hclean, Hbefore |- *.
  assert (Hchars : ∀ c, In c (list_ascii_of_string domain)
                        ∨ In c (list_ascii_of_string rest) →
                        Js.is_line_terminator c = false).
  { intros c Hc. apply (dot_plus_chars x). rewrite <- Hjoin.
    destruct path as [|y path].
    - cbn. destruct Hc as [Hc|Hc]; [exact Hc|destruct Hc].
    - change (Js.join "/" (domain :: y :: path))
        with (domain ++ "/" ++ rest)%string.
      apply chars_app. destruct Hc as [Hc|Hc]; [left; exact Hc|].
      right. right. exact Hc. }
  unfold getServerRootUrl. rewrite Hclean, Hbefore.
  assert (Hlt : ∀ c, In c (list_ascii_of_string
                            (Js.toLowerCase domain ++ "/" ++ rest)) →
                     Js.is_line_terminator c = false).
  { intros c [Hc | [<- | Hc]]%chars_app.
    - apply toLowerCase_chars in Hc as (c0 & Hc0 & ->).
      rewrite lower_char_line_terminator. apply Hchars. left. exact Hc0.
    - reflexivity.
    - apply Hchars. right. exact Hc. }
  rewrite match_protocol_head; [|exact Hp|].
  - rewrite (dot_plus_id _ Hlt).
    change (Js.toLowerCase domain ++ "/" ++ rest)%string
      with (Js.toLowerCase domain ++ String "/"%char rest)%string.
    rewrite split_at_separator.
    + pose proof (split_nonempty "/" rest) as Hne.
      destruct (Js.split "/" rest) as [|y r] eqn:Hr; [congruence|].
      rewrite <- Hr, join_split, toLowerCase_idem. reflexivity.
    + intros (c0 & Hc0 & Heq)%toLowerCase_chars.
      symmetry in Heq. apply lower_char_slash in Heq. subst c0.
      exact (Hslash Hc0).
  - rewrite (dot_plus_id _ Hlt). destruct (Js.toLowerCase domain); discriminate.
Qed.
(** ** The portal's description *)

(** X14.  A refused request for the portal's description is final.  Once
    the promise of [getPortal] has been rejected, it stays in
    [_pendingPortalRequest] whatever is called, whatever the transport
    replies and however much time passes; and from then on a manager that
    is not for one server rejects every [getTokenForServer] that has to
    start a chain (no cached token, no pending request for the root) at
    once and with that same error: no request is made, and the rejected
    promise is stored under the root. *)
Theorem rejected_portal_is_final
    (es0 es : list Event) (m : Manager) (t : Z) (e : Error) :
  let w0 := steps es0 (start m t) in
  let w := steps es w0 in
  _pendingPortalRequest (mgr w0) = Some (PortalRejected e) →
  _pendingPortalRequest (mgr w) = Some (PortalRejected e)
  ∧ ∀ url root requestOptions,
      Js.truthy (server (mgr w)) = false →
      portal (mgr w) ≠ "" →
      getServerRootUrl url = Some root →
      unexpired (federatedServers (mgr w) !! root) (now w) = false →
      pending_promise (_pendingTokenRequests (mgr w) !! root) = None →
      ∃ p w',
        getTokenForServer url requestOptions w = Some (p, w')
        ∧ promises w' !! p
          = Some {| p_key := Some root; p_state := Done (Err e) |}
        ∧ requests w' = requests w
        ∧ calls w' = calls w
        ∧ _pendingTokenRequests (mgr w') !! root = Some (SlotPromise p).
Proof.
  cbv zeta. intros Hrej0.
  set (Φ := λ m0 : Manager, _pendingPortalRequest m0 = Some (PortalRejected e)).
  assert (Hkeeps : ∀ es' w',
            steady Φ w' → steady Φ (steps es' w') ∧ (Φ (mgr w') → Φ (mgr (steps es' w')))).
  { intros es' w'. apply steps_steady; subst Φ; cbn; intros; try assumption.
    exfalso. eapply H0, H. }
  destruct (Hkeeps es0 (start m t) (start_steady Φ m t)) as [Hs0 _].
  destruct (Hkeeps es _ Hs0) as [_ Hrej]. specialize (Hrej Hrej0).
  subst Φ. cbn in Hrej.
  set (w := steps es (steps es0 (start m t))) in *.
  split; [exact Hrej|].
  intros url root ro Hserver Hportal Hroot Hexp Hpend.
  unfold getTokenForServer. rewrite Hroot, Hexp, Hpend.
  assert (Hrun : run (getTokenForServer_chain url root ro) w
                 = (w, Done (Err e))).
  { unfold getTokenForServer_chain, fetchAuthorizedDomains, getPortal.
    cbn -[Js.truthy]. rewrite Hserver.
    destruct (portal (mgr w)); [congruence|]. cbn. rewrite Hrej. reflexivity. }
  unfold spawn. rewrite Hrun. eexists _, _. split; [reflexivity|]. cbn.
  split; [apply list_lookup_middle; reflexivity|]. repeat split.
  apply lookup_insert_eq.
Qed.
Lemma portal_requests_app (w : World) (l : list Request) (r : Request) :
  portal_requests (with_requests (l ++ [r]) w)
  = (filter (λ r, rq_authentication r = true) l
     ++ if rq_authentication r then [r] else [])%list.
Proof.
  unfold portal_requests. cbn [requests with_requests].
  rewrite filter_app. f_equal.
  destruct (rq_authentication r) eqn:H.
  - rewrite filter_cons_True by exact H. reflexivity.
  - rewrite filter_cons_False by (rewrite H; discriminate). reflexivity.
Qed.

(** A run of a chain that asks once leaves the portal asked at most once. *)
Lemma run_asks_once {A : Type} (p : Async A) :
  ∀ w,
    asks_once p (mgr w) → asked_at_most_once w →
    asked_at_most_once (run p w).1
    ∧ match (run p w).2 with
      | Done _ => True
      | Waiting _ k => ∀ reply m1, asks_once (k reply) m1
      end.
Proof.
  induction p as [a|e|k IH|f k IH|r k IH|k IH|c k IH]; intros w Hp Hw;
    cbn [run asks_once] in *.
  - split; [exact Hw|exact Logic.I].
  - split; [exact Hw|exact Logic.I].
  - apply IH; [apply Hp|exact Hw].
  - destruct Hp as [Hf Hk]. apply (IH (with_mgr (f (mgr w)) w)); [exact Hk|].
    destruct Hw as [Hle Hnone]. split; [exact Hle|].
    intros Hn. apply Hnone. intros Ha. apply Hn. cbn. apply Hf, Ha.
  - destruct Hp as [Hr Hk]. cbn [fst snd]. split; [|exact Hk].
    destruct Hw as [Hle Hnone]. unfold asked_at_most_once.
    rewrite portal_requests_app, Hr, app_nil_r. split; assumption.
  - destruct (_pendingPortalRequest (mgr w)) as [[id|e]|] eqn:Hpend.
    + cbn [fst snd]. split; [exact Hw|exact Hp].
    + apply IH; [exact Hp|exact Hw].
    + destruct (_portalInfo (mgr w)) as [info|] eqn:Hinfo.
      * apply IH; [exact Hp|exact Hw].
      * cbn [fst snd]. split; [|exact Hp].
        destruct Hw as [Hle Hnone]. unfold asked_at_most_once.
        rewrite portal_requests_app. cbn [rq_authentication portal_self_request].
        assert (Hnot : ¬ portal_asked (mgr w)).
        { intros [[x Hx]|[x Hx]]; congruence. }
        unfold portal_requests in Hnone. rewrite (Hnone Hnot). cbn.
        split; [lia|].
        intros Hn. exfalso. apply Hn. left. eexists. reflexivity.
  - apply (IH (with_calls (calls w ++ [c]) w)); [exact Hp|exact Hw].
Qed.

Lemma getTokenForServer_chain_asks_once
    (url root : string) (requestOptions : option RequestOptions) (m : Manager) :
  asks_once (getTokenForServer_chain url root requestOptions) m.
Proof. unfold_chains. crunch; try reflexivity; try exact Logic.I; auto. Qed.

Lemma getFreshToken_chain_asks_once
    (requestOptions : option RequestOptions) (m : Manager) :
  asks_once (getFreshToken_chain requestOptions) m.
Proof. unfold_chains. crunch; try reflexivity; try exact Logic.I; auto. Qed.

Lemma refreshCredentials_asks_once
    (requestOptions : option RequestOptions) (m : Manager) :
  asks_once (refreshCredentials requestOptions;;; Ret VThis)%async m.
Proof. unfold_chains. crunch; try reflexivity; try exact Logic.I; auto. Qed.
Lemma resume_asked_once (pid : nat) (key : option string) (on : Wait)
    (k : Result Reply → Async Value) (reply : Result Reply) (w : World) :
  asked_once w →
  promises w !! pid = Some {| p_key := key; p_state := Waiting on k |} →
  asked_once (resume pid key k reply w).
Proof.
  intros [Hw Hall] Hpid.
  pose proof (Hall pid _ Hpid) as Hk. cbn in Hk.
  destruct (run_asks_once (k reply) w (Hk reply (mgr w)) Hw) as [Hw' Hk'].
  pose proof (resume_promises pid key k reply w) as Hprom.
  unfold resume in *. destruct (run (k reply) w) as [w1 st]. cbn [fst snd] in *.
  split; [exact Hw'|].
  intros pid' Pr'. rewrite Hprom. intros Hlook.
  destruct (decide (pid' = pid)) as [->|Hne].
  - rewrite list_lookup_insert_eq in Hlook
      by (eapply lookup_lt_Some; exact Hpid).
    injection Hlook as <-. exact Hk'.
  - rewrite list_lookup_insert_ne in Hlook by congruence.
    apply (Hall pid' Pr' Hlook).
Qed.

Lemma wake_asked_once (on : Wait) (reply : Result Reply) (w : World) :
  asked_once w → asked_once (wake on reply (numbered (promises w)) w).
Proof.
  intros Hs.
  apply (wake_preserves asked_once); [|exact Hs|apply numbered_NoDup|].
  - intros w' pid key on' k Hs' Hpid. eapply resume_asked_once; eassumption.
  - intros pid Pr. apply numbered_lookup.
Qed.

Lemma respond_asked_once (id : nat) (reply : Result Reply) (w : World) :
  asked_once w → asked_once (respond id reply w).
Proof.
  intros Hs. unfold respond.
  destruct (_pendingPortalRequest (mgr w)) as [[id'|e]|] eqn:Hp;
    try (apply wake_asked_once; exact Hs).
  destruct (Nat.eqb id id'); [|apply wake_asked_once; exact Hs].
  apply (wake_asked_once OnPortal reply (with_mgr _ w)).
  destruct Hs as [[Hle Hnone] Hall]. split; [|exact Hall].
  split; [exact Hle|]. intros Hn. exfalso. apply Hn.
  destruct reply; cbn; [right|left]; eexists; reflexivity.
Qed.

Lemma spawn_asked_once (key : option string) (body : Async Value) (w : World) :
  asked_once w → asks_once body (mgr w) → asked_once (spawn key body w).2.
Proof.
  intros [Hw Hall] Hbody. unfold spawn.
  pose proof (run_promises body w) as Hprom.
  destruct (run_asks_once body w Hbody Hw) as [Hw' Hk].
  destruct (run body w) as [w1 st]. cbn [fst snd] in *.
  split; [exact Hw'|].
  cbn [promises with_promises]. intros pid Pr Hlook. rewrite Hprom in Hlook.
  apply lookup_app_Some in Hlook as [Hold | [Hge Hnew]].
  - apply (Hall pid Pr Hold).
  - destruct (pid - List.length (promises w))%nat; [|destruct n; discriminate].
    injection Hnew as <-. exact Hk.
Qed.

Lemma step_asked_once (e : Event) (w : World) :
  asked_once w → asked_once (step e w).
Proof.
  intros Hs. destruct e as [url ro|ro|ro|t e|id reply|ms]; cbn [step].
  - unfold getTokenForServer.
    destruct (getServerRootUrl url) as [root|]; [|exact Hs].
    destruct (unexpired _ _).
    + apply (spawn_asked_once None); [exact Hs|exact Logic.I].
    + destruct (pending_promise _); [exact Hs|].
      pose proof (spawn_asked_once (Some root)
                    (getTokenForServer_chain url root ro) w Hs
                    (getTokenForServer_chain_asks_once url root ro (mgr w)))
        as H.
      destruct (spawn _ _ w). exact H.
  - unfold getFreshToken. destruct (token_fresh _ _).
    + apply (spawn_asked_once None); [exact Hs|exact Logic.I].
    + destruct (pending_promise _); [exact Hs|].
      pose proof (spawn_asked_once (Some (portal (mgr w)))
                    (getFreshToken_chain ro) w Hs
                    (getFreshToken_chain_asks_once ro (mgr w))) as H.
      destruct (spawn _ _ w). exact H.
  - apply spawn_asked_once; [exact Hs|]. apply refreshCredentials_asks_once.
  - exact Hs.
  - apply respond_asked_once, Hs.
  - exact Hs.
Qed.

(** X15.  A manager asks for the description of its portal at most once in
    its life: among all the requests that any sequence of calls, replies
    and lapses of time makes it send, at most one is the request of
    [getPortal], however many servers it is asked tokens for, and whether
    that request succeeds, fails or is never answered. *)
Theorem portal_requested_once (es : list Event) (m : Manager) (t : Z) :
  (List.length (portal_requests (steps es (start m t))) ≤ 1)%nat.
Proof.
  assert (H : ∀ w, asked_once w → asked_once (steps es w)).
  { induction es as [|e es IH]; intros w Hw; [exact Hw|].
    apply IH, step_asked_once, Hw. }
  destruct (H (start m t)) as [[Hle _] _]; [|exact Hle].
  split; [split; [cbn; lia|reflexivity]|]. intros pid Pr Hl. discriminate.
Qed.
(** ** Refreshing before asking for a server token *)

(** X16.  When the token of a manager that is not for one server has
    expired and the manager has something to refresh it with, the chain of
    [getTokenForServer], once it knows the token service, first calls
    [refreshCredentials] and sends the refresh request to the portal, and
    nothing else.  On the reply to it the manager's token and expiry become
    those of the reply, and only then is the server token requested: with
    the new token.  If the refresh fails, the chain is rejected with the
    error of the refresh and no server token is requested. *)
Theorem server_token_requested_with_refreshed_token
    (root : string) (info : AuthInfo) (w : World) :
  token_expired (mgr w) (now w) = Some true →
  Js.truthy (server (mgr w)) = false →
  Js.truthy (_username (mgr w)) && Js.truthy (password (mgr w))
  || Js.truthy (clientId (mgr w)) && Js.truthy (refreshToken (mgr w)) = true →
  ∃ w1 k refresh,
    run (on_authInfo root (Some info)) w
    = (w1, Waiting (OnRequest (List.length (requests w))) k)
    ∧ requests w1 = (requests w ++ [refresh])%list
    ∧ calls w1 = (calls w ++ [refreshCredentials_called])%list
    ∧ token (mgr w1) = token (mgr w)
    ∧ (rq_url refresh = portal (mgr w) ++ "/generateToken"
       ∨ rq_url refresh = portal (mgr w) ++ "/oauth2/token")%string
    ∧ (∀ w' response,
         ∃ w2 k',
           run (k (Ok response)) w'
           = (w2, Waiting (OnRequest (List.length (requests w'))) k')
           ∧ token (mgr w2) = Some (rp_token response)
           ∧ tokenExpires (mgr w2) = Some (rp_expires response)
           ∧ requests w2
             = (requests w'
                ++ [{| rq_via := via_request;
                       rq_url := tokenServicesUrl info;
                       rq_httpMethod := None;
                       rq_params :=
                         Some [("token", PText (Some (rp_token response)));
                               ("serverUrl", PText (Some root));
                               ("expiration",
                                PNumber (tokenDuration (mgr w')))];
                       rq_credentials := None;
                       rq_authentication := false;
                       rq_options := None |}])%list)
    ∧ (∀ w' e,
         ∃ e',
           run (k (Err e)) w' = (w', Done (Err e'))
           ∧ (err_code e' = Some TOKEN_REFRESH_FAILED
              ∨ err_code e' = Some REFRESH_TOKEN_EXCHANGE_FAILED)).
Proof.
  intros Hexp Hserver Hcan.
  assert (Hname : Js.truthy (username (set_user None (mgr w)))
                  = Js.truthy (_username (mgr w))).
  { unfold username. cbn. destruct (Js.truthy (_username (mgr w))) eqn:H;
      [exact H|reflexivity]. }
  assert (Hsrv : match server (mgr w) with
                 | Some (String _ _) => False
                 | _ => True
                 end).
  { destruct (server (mgr w)) as [[|c s]|];
      [exact Logic.I|discriminate|exact Logic.I]. }
  unfold on_authInfo. cbn [run]. rewrite Hexp, Hserver.
  unfold refreshCredentials, generate_with, generateTokenForServer.
  cbn -[Js.truthy username refreshWithUsernameAndPassword
        refreshWithRefreshToken].
  rewrite Hname. unfold refreshToken in Hcan.
  destruct (Js.truthy (_username (mgr w)) && Js.truthy (password (mgr w))).
  - unfold refreshWithUsernameAndPassword, request, modify, settle.
    cbn -[Js.truthy username].
    destruct (server (mgr w)) as [[|c s]|]; try contradiction;
      cbn; eexists _, _, _;
      (split; [reflexivity|]); cbn;
      repeat split; try (left; reflexivity);
      intros; cbn; eexists; try eexists; repeat split; left; reflexivity.
  - cbn [orb] in Hcan. rewrite Hcan.
    unfold refreshWithRefreshToken, exchangeRefreshToken, request, modify,
      settle.
    cbn -[Js.truthy refreshToken_expires_soon].
    destruct (refreshToken_expires_soon _ _);
      cbn; eexists _, _, _;
      (split; [reflexivity|]); cbn;
      repeat split; try (right; reflexivity);
      intros; cbn; eexists; try eexists; repeat split;
      first [left; reflexivity | right; reflexivity].
Qed.
(** ** Edges *)

(** X17.  The [provider] of a manager is not serialized: whatever it was,
    the manager that [deserialize(serialize(m))] builds, and likewise the
    one that [parentMessageHandler] builds from the credential that a host
    posts, has the default provider ["arcgis"]. *)
Theorem provider_is_not_serialized (m m' : Manager) :
  (deserialize (serialize m) = Some m' → provider m' = "arcgis")
  ∧ (∀ origin,
       parentMessageHandler
         {| ev_origin := origin;
            ev_data := {| d_type := "arcgis:auth:credential";
                          d_credential := Some (toJSON m);
                          d_error := None |} |}
       = Built m' →
       provider m' = "arcgis").
Proof.
  assert (H : new_manager (options_of (toJSON m)) = Some m' →
              provider m' = "arcgis").
  { unfold new_manager. cbn [o_server options_of toJSON s_server o_provider].
    destruct (server m) as [[|c s]|].
    - intros [= <-]. reflexivity.
    - destruct (getServerRootUrl (String c s)); [|discriminate].
      intros [= <-]. reflexivity.
    - intros [= <-]. reflexivity. }
  split.
  - intros Hd. apply H. exact Hd.
  - intros origin Hp. apply H. unfold parentMessageHandler in Hp. cbn in Hp.
    destruct (new_manager (options_of (toJSON m))) as [m0|]; [|discriminate].
    injection Hp as <-. reflexivity.
Qed.


(** X19.  A token without an expiry is an edge that the methods treat
    differently.  [getFreshToken] takes it for fresh and resolves to it at
    once, at any time.  The chain of [getTokenForServer], when it comes to
    ask whether the token has expired, is rejected with a [TypeError], the
    manager untouched and no token requested; [toCredential] and the handler
    of [createPostMessageHandler] raise it as well. *)
Theorem token_without_expiry
    (w : World) (root : string) (info : option AuthInfo)
    (requestOptions : option RequestOptions)
    (validOrigins : list string) (event : MessageEvent) :
  Js.truthy (token (mgr w)) = true →
  tokenExpires (mgr w) = None →
  getFreshToken requestOptions w = resolved (token (mgr w)) w
  ∧ (∃ message,
       run (on_authInfo root info) w = (w, Done (Err (TypeError message))))
  ∧ toCredential (mgr w) = None
  ∧ createPostMessageHandler validOrigins (mgr w) (now w) event = None.
Proof.
  intros Htoken Hexp. split; [|split; [|split]].
  - unfold getFreshToken, token_fresh. rewrite Htoken, Hexp. reflexivity.
  - unfold on_authInfo. cbn [run]. unfold token_expired.
    rewrite Htoken, Hexp. eexists. reflexivity.
  - unfold toCredential. rewrite Hexp. reflexivity.
  - unfold createPostMessageHandler. rewrite Hexp. reflexivity.
Qed.

(** ** Replaying a chain *)

Lemma run_calls {A : Type} (p : Async A) (w : World) :
  ∃ cs, calls (run p w).1 = (calls w ++ cs)%list.
Proof.
  revert w. induction p as [a|e|k IH|f k IH|r k IH|k IH|c k IH]; intros w;
    cbn [run]; try (exists []; rewrite app_nil_r; reflexivity).
  - apply IH.
  - apply (IH (with_mgr (f (mgr w)) w)).
  - destruct (_pendingPortalRequest (mgr w)) as [[id|e]|];
      try (exists []; rewrite app_nil_r; reflexivity).
    + apply IH.
    + destruct (_portalInfo (mgr w));
        [apply IH|exists []; rewrite app_nil_r; reflexivity].
  - destruct (IH (with_calls (calls w ++ [c]) w)) as [cs Hcs].
    exists (c :: cs). rewrite Hcs. cbn. rewrite <- app_assoc. reflexivity.
Qed.

(** A chain that settles when replayed settles. *)
Lemma replay_settles {A : Type} (replies : list (Result Reply)) :
  ∀ (p : Async A) r w rl wl wf res,
    replay p r w replies = Some (rl, wl, wf, res) →
    ∃ cs, settles p r w rl wl wf res cs.
Proof.
  induction replies as [|reply rest IH]; intros p r w rl wl wf res;
    cbn [replay]; destruct (run p w) as [w1 [res1|on k]] eqn:Hrun.
  - intros [= <- <- <- <-].
    destruct (run_calls p w) as [cs Hcs]. rewrite Hrun in Hcs.
    exists cs. apply settles_now; assumption.
  - discriminate.
  - intros [= <- <- <- <-].
    destruct (run_calls p w) as [cs Hcs]. rewrite Hrun in Hcs.
    exists cs. apply settles_now; assumption.
  - intros Hrest. destruct (IH _ _ _ _ _ _ _ Hrest) as [cs2 Hs].
    destruct (run_calls p w) as [cs1 Hcs]. rewrite Hrun in Hcs.
    exists (cs1 ++ cs2)%list. eapply settles_later; eassumption.
Qed.

(** ** Bounds *)

(** One run of a chain within its bounds. *)
Lemma run_within {A : Type} (s : option string) (p : Async A) :
  ∀ nr nc w,
    server (mgr w) = s →
    within s nr nc p (mgr w) →
    ∃ nr' nc',
      (List.length (requests (run p w).1) + nr'
       ≤ List.length (requests w) + nr)%nat
      ∧ (List.length (calls (run p w).1) + nc'
         ≤ List.length (calls w) + nc)%nat
      ∧ server (mgr (run p w).1) = s
      ∧ match (run p w).2 with
        | Done _ => True
        | Waiting _ k =>
            ∀ reply m1, server m1 = s → within s nr' nc' (k reply) m1
        end.
Proof.
  induction p as [a|e|k IH|f k IH|r k IH|k IH|c k IH]; intros nr nc w Hs H;
    cbn [run within] in H |- *.
  - exists nr, nc. cbn. auto.
  - exists nr, nc. cbn. auto.
  - apply IH; [exact Hs|apply H].
  - destruct H as [Hf H].
    apply (IH nr nc (with_mgr (f (mgr w)) w)); [cbn; congruence|exact H].
  - destruct nr as [|nr]; [contradiction|]. exists nr, nc. cbn.
    rewrite length_app. cbn. split; [lia|]. split; [lia|]. split; assumption.
  - destruct nr as [|nr]; [contradiction|].
    destruct (_pendingPortalRequest (mgr w)) as [[id|e]|].
    + exists nr, nc. cbn. split; [lia|]. split; [lia|]. split; assumption.
    + destruct (IH (Err e) nr nc w Hs (H (Err e) (mgr w) Hs))
        as (nr' & nc' & Hr & Hc & Hs' & Hk).
      exists nr', nc'. split; [lia|]. auto.
    + destruct (_portalInfo (mgr w)) as [info|].
      * destruct (IH (Ok info) nr nc w Hs (H (Ok info) (mgr w) Hs))
          as (nr' & nc' & Hr & Hc & Hs' & Hk).
        exists nr', nc'. split; [lia|]. auto.
      * exists nr, nc. cbn. rewrite length_app. cbn.
        split; [lia|]. split; [lia|]. split; assumption.
  - destruct nc as [|nc]; [contradiction|].
    destruct (IH nr nc (with_calls (calls w ++ [c]) w) Hs H)
      as (nr' & nc' & Hr & Hc & Hs' & Hk).
    exists nr', nc'. cbn in Hr, Hc. rewrite length_app in Hc. cbn in Hc.
    split; [exact Hr|]. split; [lia|]. auto.
Qed.

Lemma replay_within {A : Type} (s : option string)
    (replies : list (Result Reply)) :
  ∀ (p : Async A) nr nc w,
    server (mgr w) = s →
    within s nr nc p (mgr w) →
    (List.length (requests (replay_world p w replies))
     ≤ List.length (requests w) + nr)%nat
    ∧ (List.length (calls (replay_world p w replies))
       ≤ List.length (calls w) + nc)%nat.
Proof.
  induction replies as [|reply rest IH]; intros p nr nc w Hs H;
    cbn [replay_world];
    destruct (run_within s p nr nc w Hs H) as (nr' & nc' & Hr & Hc & Hs' & Hk);
    destruct (run p w) as [w1 [res|on k]]; cbn [fst snd] in *;
    try (split; lia).
  destruct (IH (k reply) nr' nc' w1 Hs' (Hk reply (mgr w1) Hs')) as [Hr' Hc'].
  split; lia.
Qed.

Lemma getTokenForServer_chain_within
    (url root : string) (requestOptions : option RequestOptions) (m : Manager) :
  within (server m) 5 1 (getTokenForServer_chain url root requestOptions) m.
Proof.
  unfold_chains. crunch; try exact Logic.I; try reflexivity.
  all: match goal with
       | H : Js.truthy (Some (String _ _)) = false |- _ => discriminate H
       end.
Qed.

Lemma getFreshToken_chain_within
    (requestOptions : option RequestOptions) (m : Manager) :
  within (server m) 2 1 (getFreshToken_chain requestOptions) m.
Proof. unfold_chains. crunch; try exact Logic.I; try reflexivity. Qed.

(** X20.  One acquisition is bounded.  The chain of [getTokenForServer],
    replayed on any replies whatever, makes at most five requests (for the
    portal's description, the server's, the owning system's, the refresh
    and the server token) and calls [refreshCredentials] at most once; the
    chain of [getFreshToken] makes at most two requests and calls
    [refreshCredentials] at most once.  Nothing is retried. *)
Theorem token_acquisition_is_bounded
    (url root : string) (requestOptions : option RequestOptions)
    (w : World) (replies : list (Result Reply)) :
  let server := replay_world (getTokenForServer_chain url root requestOptions)
                  w replies in
  let fresh := replay_world (getFreshToken_chain requestOptions) w replies in
  (List.length (requests server) ≤ List.length (requests w) + 5)%nat
  ∧ (List.length (calls server) ≤ List.length (calls w) + 1)%nat
  ∧ (List.length (requests fresh) ≤ List.length (requests w) + 2)%nat
  ∧ (List.length (calls fresh) ≤ List.length (calls w) + 1)%nat.
Proof.
  cbv zeta.
  destruct (replay_within _ replies _ _ _ w eq_refl
              (getTokenForServer_chain_within url root requestOptions (mgr w)))
    as [H1 H2].
  destruct (replay_within _ replies _ _ _ w eq_refl
              (getFreshToken_chain_within requestOptions (mgr w))) as [H3 H4].
  auto.
Qed.

(** ** More edges *)

(** X21.  At the very millisecond at which the token expires the methods
    disagree.  [getFreshToken] no longer takes the token for fresh: with no
    refresh pending it calls [refreshCredentials].  The chain of
    [getTokenForServer] does not yet take it for expired: it asks for the
    server token with it, without a refresh. *)
Theorem expiry_boundary
    (requestOptions : option RequestOptions) (root : string) (info : AuthInfo)
    (w : World) :
  Js.truthy (token (mgr w)) = true →
  tokenExpires (mgr w) = Some (now w) →
  pending_promise (_pendingTokenRequests (mgr w) !! portal (mgr w)) = None →
  calls (getFreshToken requestOptions w).2
  = (calls w ++ [refreshCredentials_called])%list
  ∧ ∃ k,
      sends (on_authInfo root (Some info)) w
            (generate_token_request (mgr w) (tokenServicesUrl info) root) k.
Proof.
  intros Htoken Hexp Hpend. split.
  - unfold getFreshToken.
    rewrite (token_fresh_expired _ _ _ Hexp (Z.le_refl _)), Hpend.
    destruct (run_holds _ _ _ w _ _ _
                (getFreshToken_chain_fresh_contract requestOptions (mgr w)))
      as (cs' & Hc & Hq).
    assert (Hcs : cs' = [refreshCredentials_called]).
    { destruct ((run (getFreshToken_chain requestOptions) w).2);
        [destruct Hq as [Hq _]|destruct Hq as [[Hq _] _]]; exact Hq. }
    subst cs'. unfold spawn.
    destruct (run (getFreshToken_chain requestOptions) w) as [w1 st]. exact Hc.
  - unfold sends, on_authInfo, generate_with, generateTokenForServer, request.
    cbn [run]. unfold token_expired. rewrite Htoken, Hexp, Z.ltb_irrefl.
    cbn. eexists. reflexivity.
Qed.

Lemma startsWith_app (d rest : string) : Js.startsWith d (d ++ rest) = true.
Proof.
  induction d as [|a d IH]; [reflexivity|].
  change (String a d ++ rest)%string with (String a (d ++ rest)).
  cbn [Js.startsWith]. destruct (ascii_dec a a); [exact IH|congruence].
Qed.

(** X22.  [getDomainCredentials] trusts by prefix: it answers ["include"]
    exactly for the URLs that begin with the text of a trusted domain,
    whatever follows, be it a path or more of a host name. *)
Theorem trusted_domain_is_a_prefix (m : Manager) (url : string) :
  getDomainCredentials m url = include
  ↔ ∃ d rest, In d (trustedDomains m) ∧ url = (d ++ rest)%string.
Proof.
  unfold getDomainCredentials. split.
  - destruct (trustedDomains m) as [|d0 ds]; [discriminate|].
    destruct (existsb _ _) eqn:Hex; [|discriminate]. intros _.
    apply existsb_exists in Hex as (d & Hin & Hpre).
    apply startsWith_prefix in Hpre as [rest ->]. exists d, rest. auto.
  - intros (d & rest & Hin & ->).
    destruct (trustedDomains m) as [|d0 ds]; [destruct Hin|].
    replace (existsb _ (d0 :: ds)) with true; [reflexivity|].
    symmetry. apply existsb_exists. exists d. split; [exact Hin|].
    apply startsWith_app.
Qed.

Lemma protocol_here_has (s p r : string) :
  protocol_here s = Some (p, r) →
  ∃ c rest, s = (p ++ String c rest)%string
            ∧ (p = "https://" ∨ p = "http://")
            ∧ Js.is_line_terminator c = false.
Proof.
  assert (Hdot : ∀ x, dot_plus x ≠ "" →
            ∃ c rest, x = String c rest ∧ Js.is_line_terminator c = false).
  { intros [|c x]; cbn; [congruence|].
    destruct (Js.is_line_terminator c) eqn:Hc; [congruence|]. eauto. }
  unfold protocol_here.
  destruct (Js.startsWith "https://" s) eqn:Hs.
  - pose proof (https_is_not_http s Hs) as Hnot. rewrite Hnot.
    apply startsWith_prefix in Hs as [x ->].
    change (Js.drop (String.length "https://") ("https://" ++ x)) with x.
    destruct (dot_plus x) eqn:Hx; [discriminate|].
    intros [= <- <-].
    destruct (Hdot x) as (c & rest & -> & Hc); [congruence|]. eauto 6.
  - destruct (Js.startsWith "http://" s) eqn:Hs'; [|discriminate].
    apply startsWith_prefix in Hs' as [x ->].
    change (Js.drop (String.length "http://") ("http://" ++ x)) with x.
    destruct (dot_plus x) eqn:Hx; [discriminate|].
    intros [= <- <-].
    destruct (Hdot x) as (c & rest & -> & Hc); [congruence|]. eauto 6.
Qed.

Lemma match_protocol_has (s : string) :
  is_Some (match_protocol s) ↔ has_protocol s.
Proof.
  split.
  - intros [[p r] H]. induction s as [|a s IH]; cbn [match_protocol] in H.
    + destruct (protocol_here "") as [[p' r']|] eqn:Hh; [|discriminate].
      destruct (protocol_here_has _ _ _ Hh) as (c & rest & Hs & Hp & Hc).
      exists "", p', c, rest. auto.
    + destruct (protocol_here (String a s)) as [[p' r']|] eqn:Hh.
      * destruct (protocol_here_has _ _ _ Hh) as (c & rest & Hs & Hp & Hc).
        exists "", p', c, rest. auto.
      * destruct (IH H) as (pre & p' & c & rest & -> & Hp & Hc).
        exists (String a pre), p', c, rest. auto.
  - intros (pre & p & c & rest & -> & Hp & Hc).
    induction pre as [|a pre IH].
    + change ("" ++ p ++ String c rest)%string with (p ++ String c rest)%string.
      rewrite (match_protocol_head p (String c rest) Hp).
      * eexists. reflexivity.
      * cbn. rewrite Hc. discriminate.
    + change (String a pre ++ p ++ String c rest)%string
        with (String a (pre ++ p ++ String c rest)).
      cbn [match_protocol].
      destruct (protocol_here _) as [x|]; [eexists; reflexivity|exact IH].
Qed.

(** X23.  [getServerRootUrl] raises exactly for the URLs that have no
    protocol: it returns a root if, and only if, the part of the cleaned
    URL before the services segment contains [http://] or [https://]
    followed by at least one character that is no line terminator. *)
Theorem getServerRootUrl_needs_protocol (url : string) :
  is_Some (getServerRootUrl url)
  ↔ has_protocol (before_services (cleanUrl url)).
Proof.
  rewrite <- match_protocol_has. unfold getServerRootUrl.
  destruct (match_protocol _) as [[protocol domainAndPath]|].
  - pose proof (split_nonempty "/" domainAndPath) as Hne.
    destruct (Js.split "/" domainAndPath) as [|domain path]; [congruence|].
    split; intros _; eexists; reflexivity.
  - split; intros [x H]; discriminate.
Qed.


End Methods.

(** * The properties at work *)


(** C9, at a manager with nothing to refresh with and at one with a user
    name and a password. *)
Lemma refreshCredentials_dispatch_witness :
  let stale := start (manager_of stale_options) 2000 in
  let signed_in := start (manager_of signed_in_options) 5000 in
  (run (refreshCredentials example_referer None) stale
   = (user_cleared stale, Done (Err no_credentials_error))
   ∧ err_code no_credentials_error = Some TOKEN_REFRESH_FAILED
   ∧ requests (user_cleared stale) = requests stale)
  ∧ run (refreshCredentials example_referer None) signed_in
    = run (refreshWithUsernameAndPassword example_referer None)
          (user_cleared signed_in).
Proof.
  cbv zeta. split.
  - apply (refreshCredentials_dispatch example_referer None
             (start (manager_of stale_options) 2000)); reflexivity.
  - apply (refreshCredentials_dispatch example_referer None
             (start (manager_of signed_in_options) 5000)); reflexivity.
Defined.


(** C2, at a manager asked for the token of a server and asked again, with
    another URL of the same server, before any reply: the second caller is
    handed the promise of the first, and the world stays as it is. *)
Lemma pending_requests_deduplicated_witness :
  let w := steps owned_by_example_portal example_referer
                 [CallGetTokenForServer gis_url None]
                 (start (manager_of signed_in_options) 5000) in
  getTokenForServer owned_by_example_portal example_referer
    "https://gis.example.com/arcgis/rest/services/Roads/MapServer" None w
  = Some (0%nat, w).
Proof.
  cbv zeta.
  pose proof (pending_requests_deduplicated
                owned_by_example_portal example_referer
                [CallGetTokenForServer gis_url None]
                (manager_of signed_in_options) 5000) as H.
  cbv zeta in H. destruct H as (_ & _ & Hjoin & _).
  apply (Hjoin _ gis_root); vm_compute; reflexivity.
Defined.



(** X2, at the signed-in manager once its portal has named a trusted
    domain. *)
Lemma credentials_included_only_over_https_witness :
  let es := [CallGetTokenForServer gis_url None;
             Respond 0 (Ok portal_self_reply)] in
  let m := manager_of signed_in_options in
  let url := "https://gis.example.com/arcgis/rest/services/Roads/MapServer" in
  all_https m
  ∧ getDomainCredentials
      (mgr (steps owned_by_example_portal example_referer es (start m 5000)))
      url = include
  ∧ Js.startsWith "https://" url = true.
Proof.
  cbv zeta.
  assert (H1 : all_https (manager_of signed_in_options))
    by (unfold all_https; vm_compute; constructor).
  assert (H2 : getDomainCredentials
                 (mgr (steps owned_by_example_portal example_referer
                         [CallGetTokenForServer gis_url None;
                          Respond 0 (Ok portal_self_reply)]
                         (start (manager_of signed_in_options) 5000)))
                 "https://gis.example.com/arcgis/rest/services/Roads/MapServer"
               = include) by (vm_compute; reflexivity).
  split; [exact H1|]. split; [exact H2|].
  exact (credentials_included_only_over_https _ _ _ _ _ _ H1 H2).
Defined.

(** X3, at a list with a bare domain, an [http://] one and an [https://]
    one. *)
Lemma normalize_domains_idempotent_witness :
  let domains := ["gis.example.com"; "http://old.example.com";
                  "https://maps.example.com"] in
  normalize_domains domains
  = ["https://gis.example.com"; "https://maps.example.com"]
  ∧ normalize_domains (normalize_domains domains) = normalize_domains domains.
Proof.
  cbv zeta. split; [reflexivity|].
  apply (normalize_domains_idempotent
           ["gis.example.com"; "http://old.example.com";
            "https://maps.example.com"]).
Defined.

(** X4, at the manager of one server, asked for the token of a service of
    that server before its token expires. *)
Lemma server_manager_answers_from_cache_witness :
  ∃ p w',
    getTokenForServer owned_by_example_portal example_referer gis_url None
      (start (manager_of server_options) 5000)
    = Some (p, w')
    ∧ promises w' !! p
      = Some {| p_key := None; p_state := Done (Ok (VToken (Some "token"))) |}
    ∧ requests w' = []
    ∧ calls w' = []
    ∧ mgr w' = manager_of server_options.
Proof.
  apply (server_manager_answers_from_cache
           owned_by_example_portal example_referer server_options
           (manager_of server_options) "https://gis.example.com/arcgis"
           gis_url gis_root 1700000000000 5000 None);
    try reflexivity.
  discriminate.
Defined.


(** X6, at the same chain when the request for the portal fails. *)
Lemma getTokenForServer_rejections_witness :
  ∃ rl wl wf cs,
    settles (getTokenForServer_chain owned_by_example_portal example_referer
               gis_url gis_root None)
            None (start (manager_of signed_in_options) 5000)
            rl wl wf (Err network_down) cs
    ∧ (token_request_error network_down
       ∨ (∃ message, network_down = TypeError message)
       ∨ rl = Some (Err network_down)
       ∨ _pendingPortalRequest (mgr wl) = Some (PortalRejected network_down)).
Proof.
  destruct (replay_settles
              [Err network_down]
              (getTokenForServer_chain owned_by_example_portal example_referer
                 gis_url gis_root None)
              None (start (manager_of signed_in_options) 5000)
              _ _ _ _ ltac:(vm_compute; reflexivity))
    as [cs Hs].
  eexists _, _, _, cs. split; [exact Hs|].
  exact (getTokenForServer_rejections _ _ _ _ _ _ _ _ _ _ _ Hs).
Defined.


(** X8, at the signed-in manager after its token expired, whose refresh is
    answered with a token that lasts. *)
Lemma refreshed_token_is_fresh_witness :
  ∃ rl wl wf cs,
    settles (getFreshToken_chain example_referer None) None
            (start (manager_of signed_in_options) 10000)
            rl wl wf (Ok (VToken (Some "home-2"))) cs
    ∧ ∃ p w',
        getFreshToken example_referer None wf = (p, w')
        ∧ promises w' !! p
          = Some {| p_key := None;
                    p_state := Done (Ok (VToken (Some "home-2"))) |}
        ∧ requests w' = requests wf
        ∧ calls w' = calls wf.
Proof.
  destruct (replay_settles
              [Ok (token_reply "home-2" 90000)]
              (getFreshToken_chain example_referer None)
              None (start (manager_of signed_in_options) 10000)
              _ _ _ _ ltac:(vm_compute; reflexivity))
    as [cs Hs].
  eexists _, _, _, cs. split; [exact Hs|].
  destruct (refreshed_token_is_fresh _ _ _ _ _ _ _ _ Hs)
    as (response & Hrl & _ & _ & _ & Hfresh & _).
  injection Hrl as <-.
  destruct (Hfresh ltac:(discriminate) ltac:(vm_compute; reflexivity) None)
    as (p & w' & Hcall & Hpromise & Hrequests & Hcalls & _).
  exists p, w'. auto.
Defined.


(** X10, at a manager with a user name and password, and at one with a
    refresh token and no redirect URI. *)
Lemma canRefresh_starts_refresh_witness :
  let signed_in := start (manager_of signed_in_options) 5000 in
  let oauth := start (manager_of oauth_without_redirect_options) 5000 in
  canRefresh (mgr signed_in) = true
  ∧ (∃ r k w',
       run (refreshCredentials example_referer None) signed_in
       = (w', Waiting (OnRequest 0) k)
       ∧ requests w' = [r])
  ∧ canRefresh (mgr oauth) = false
  ∧ ∃ r k w',
      run (refreshCredentials example_referer None) oauth
      = (w', Waiting (OnRequest 0) k)
      ∧ requests w' = [r].
Proof.
  cbv zeta. split; [reflexivity|]. split.
  - pose proof (canRefresh_starts_refresh example_referer None
                  (start (manager_of signed_in_options) 5000)) as H.
    cbv zeta in H. destruct H as [H _]; [reflexivity|discriminate|].
    apply H. reflexivity.
  - pose proof (canRefresh_starts_refresh example_referer None
                  (start (manager_of oauth_without_redirect_options) 5000))
      as H.
    cbv zeta in H. destruct H as [_ H]; [reflexivity|discriminate|].
    apply H; reflexivity.
Defined.



(** X13, at the example server. *)
Lemma getServerRootUrl_fixpoint_witness :
  getServerRootUrl gis_url = Some gis_root
  ∧ getServerRootUrl gis_root = Some gis_root.
Proof.
  split; [reflexivity|].
  apply (getServerRootUrl_fixpoint gis_url gis_root); reflexivity.
Defined.

(** X14, at the signed-in manager after the request for its portal failed,
    asked an hour later for the token of another server. *)
Lemma rejected_portal_is_final_witness :
  let w0 := steps owned_by_example_portal example_referer
              [CallGetTokenForServer gis_url None;
               Respond 0 (Err network_down)]
              (start (manager_of signed_in_options) 5000) in
  let w := steps owned_by_example_portal example_referer
             [Elapse 3600000] w0 in
  _pendingPortalRequest (mgr w0) = Some (PortalRejected network_down)
  ∧ ∃ p w',
      getTokenForServer owned_by_example_portal example_referer
        roads_url None w
      = Some (p, w')
      ∧ promises w' !! p
        = Some {| p_key := Some "https://roads.example.com/arcgis";
                  p_state := Done (Err network_down) |}
      ∧ requests w' = requests w.
Proof.
  cbv zeta.
  assert (H0 : _pendingPortalRequest
                 (mgr (steps owned_by_example_portal example_referer
                         [CallGetTokenForServer gis_url None;
                          Respond 0 (Err network_down)]
                         (start (manager_of signed_in_options) 5000)))
               = Some (PortalRejected network_down))
    by (vm_compute; reflexivity).
  split; [exact H0|].
  pose proof (rejected_portal_is_final
                owned_by_example_portal example_referer
                [CallGetTokenForServer gis_url None;
                 Respond 0 (Err network_down)]
                [Elapse 3600000]
                (manager_of signed_in_options) 5000 network_down) as H.
  cbv zeta in H. destruct (H H0) as [_ Hnext].
  destruct (Hnext roads_url "https://roads.example.com/arcgis" None)
    as (p & w' & Hcall & Hpromise & Hrequests & _);
    try (vm_compute; reflexivity); [vm_compute; discriminate|].
  exists p, w'. auto.
Defined.

(** X16, at the signed-in manager after its token expired. *)
Lemma server_token_requested_with_refreshed_token_witness :
  let w := start (manager_of signed_in_options) 10000 in
  let info :=
    {| tokenServicesUrl :=
         "https://portal.example.com/sharing/rest/generateToken" |} in
  ∃ w1 k refresh,
    run (on_authInfo example_referer gis_root (Some info)) w
    = (w1, Waiting (OnRequest 0) k)
    ∧ requests w1 = [refresh]
    ∧ calls w1 = [refreshCredentials_called]
    ∧ ∃ w2 k',
        run (k (Ok (token_reply "home-2" 90000))) w1
        = (w2, Waiting (OnRequest 1) k')
        ∧ token (mgr w2) = Some "home-2".
Proof.
  cbv zeta.
  destruct (server_token_requested_with_refreshed_token
              example_referer gis_root
              {| tokenServicesUrl :=
                   "https://portal.example.com/sharing/rest/generateToken" |}
              (start (manager_of signed_in_options) 10000)
              eq_refl eq_refl eq_refl)
    as (w1 & k & refresh & Hrun & Hrequests & Hcalls & _ & _ & Hok & _).
  exists w1, k, refresh. do 3 (split; [assumption|]).
  destruct (Hok w1 (token_reply "home-2" 90000))
    as (w2 & k' & Hrun' & Htoken & _).
  exists w2, k'. rewrite Hrequests in Hrun'. auto.
Defined.

(** X17, at a manager signed in through a social login. *)
Lemma provider_is_not_serialized_witness :
  provider (manager_of social_options) = "facebook"
  ∧ ∃ m', deserialize (serialize (manager_of social_options)) = Some m'
          ∧ provider m' = "arcgis".
Proof.
  split; [reflexivity|].
  destruct (deserialize (serialize (manager_of social_options))) as [m'|]
    eqn:Hm'; [|vm_compute in Hm'; discriminate].
  exists m'. split; [reflexivity|].
  exact (proj1 (provider_is_not_serialized (manager_of social_options) m') Hm').
Defined.


(** X19, at a manager made from a token alone. *)
Lemma token_without_expiry_witness :
  let w := start (manager_of token_only_options) 5000 in
  getFreshToken example_referer None w = resolved (Some "borrowed") w
  ∧ (∃ message,
       run (on_authInfo example_referer gis_root None) w
       = (w, Done (Err (TypeError message))))
  ∧ toCredential (mgr w) = None
  ∧ createPostMessageHandler ["https://app.example.com"] (mgr w) (now w)
      (credential_request "https://app.example.com")
    = None.
Proof.
  cbv zeta.
  apply (token_without_expiry example_referer
           (start (manager_of token_only_options) 5000) gis_root None None
           ["https://app.example.com"]
           (credential_request "https://app.example.com"));
    reflexivity.
Defined.

(** X21, at the signed-in manager at the millisecond its token expires. *)
Lemma expiry_boundary_witness :
  let w := start (manager_of signed_in_options) 9000 in
  tokenExpires (mgr w) = Some (now w)
  ∧ calls (getFreshToken example_referer None w).2 = [refreshCredentials_called]
  ∧ ∃ k,
      sends (on_authInfo example_referer gis_root
               (Some {| tokenServicesUrl :=
                          "https://portal.example.com/sharing/rest/generateToken" |}))
            w
            (generate_token_request (mgr w)
               "https://portal.example.com/sharing/rest/generateToken"
               gis_root) k.
Proof.
  cbv zeta. split; [reflexivity|].
  apply (expiry_boundary example_referer None gis_root
           {| tokenServicesUrl :=
                "https://portal.example.com/sharing/rest/generateToken" |}
           (start (manager_of signed_in_options) 9000));
    reflexivity.
Defined.

(** ** Runs of the model *)

Example getServerRootUrl_examples :
  getServerRootUrl
    "https://PNP00035.esri.com/server/rest/services/Hosted/perimeters/FeatureServer"
  = Some "https://pnp00035.esri.com/server"
  ∧ getServerRootUrl
      "http://gis.city.gov/tiles/LkFyxb9zDq7vAOAm/arcgis/rest/admin/services/Basemap/VectorTileServer"
    = Some "http://gis.city.gov/tiles/LkFyxb9zDq7vAOAm/arcgis"
  ∧ getServerRootUrl "https://gis.example.com/arcgis/rest/servicesX/a"
    = Some "https://gis.example.com/arcgis/rest/servicesX/a"
  ∧ getServerRootUrl " https://gis.example.com/arcgis/ "
    = Some "https://gis.example.com/arcgis"
  ∧ getServerRootUrl "gis.example.com/arcgis" = None.
Proof. repeat split. Qed.

(** A federated server: portal, server, owning system, token; two callers,
    one chain of four requests, one cache entry with the expiry brought
    forward by five minutes.  The URL as given, with its capitals, starts
    with no trusted domain. *)
Example federation_run :
  let w :=
    steps owned_by_example_portal example_referer
      [CallGetTokenForServer gis_url None;
       CallGetTokenForServer gis_url None;
       Respond 0 (Ok portal_self_reply);
       Respond 1 (Ok (owned_by "https://portal.example.com"));
       Respond 2 (Ok portal_info_reply);
       Respond 3 (Ok (token_reply "for-gis" 8000000))]
      (start (manager_of signed_in_options) 5000) in
  map rq_url (requests w)
  = ["https://portal.example.com/sharing/rest/portals/self";
     "https://gis.example.com/arcgis/rest/info";
     "https://portal.example.com/sharing/rest/info";
     "https://portal.example.com/sharing/rest/generateToken"]
  ∧ map rq_credentials (requests w) = [None; Some same_origin; None; None]
  ∧ List.length (promises w) = 1%nat
  ∧ outcome 0 w = Some (Ok (VToken (Some "for-gis")))
  ∧ federatedServers (mgr w) !! gis_root
    = Some {| st_token := Some "for-gis"; st_expires := Some 7700000 |}
  ∧ _pendingTokenRequests (mgr w) !! gis_root = None
  ∧ trustedDomains (mgr w) = ["https://gis.example.com"]
  ∧ calls w = [].
Proof. vm_compute. repeat split. Qed.

(** A server of another portal: rejected, nothing cached, and the rejected
    promise still pending. *)
Example not_federated_run :
  let w :=
    steps owned_by_example_portal example_referer
      [CallGetTokenForServer gis_url None;
       Respond 0 (Ok portal_self_reply);
       Respond 1 (Ok (owned_by "https://elsewhere.example.org/portal"))]
      (start (manager_of signed_in_options) 5000) in
  (outcome 0 w ≫= λ r, match r with
                        | Err e => err_code e
                        | Ok _ => None
                        end) = Some NOT_FEDERATED
  ∧ federatedServers (mgr w) = ∅
  ∧ List.length (requests w) = 2%nat
  ∧ _pendingTokenRequests (mgr w) !! gis_root = Some (SlotPromise 0).
Proof. vm_compute. repeat split. Qed.

(** An expired home token is refreshed first, once, with the user name and
    password; the server token is generated with the new one.  The URL
    starts with a trusted domain. *)
Example expired_home_token_run :
  let w :=
    steps owned_by_example_portal example_referer
      [CallGetTokenForServer
         "https://gis.example.com/arcgis/rest/services/Roads/MapServer" None;
       Respond 0 (Ok portal_self_reply);
       Respond 1 (Ok (owned_by "https://portal.example.com"));
       Respond 2 (Ok portal_info_reply);
       Respond 3 (Ok (token_reply "home-2" 90000));
       Respond 4 (Ok (token_reply "for-gis" 8000000))]
      (start (manager_of signed_in_options) 10000) in
  map rq_url (requests w)
  = ["https://portal.example.com/sharing/rest/portals/self";
     "https://gis.example.com/arcgis/rest/info";
     "https://portal.example.com/sharing/rest/info";
     "https://portal.example.com/sharing/rest/generateToken";
     "https://portal.example.com/sharing/rest/generateToken"]
  ∧ map rq_credentials (requests w) = [None; Some include; None; None; None]
  ∧ calls w = [refreshCredentials_called]
  ∧ token (mgr w) = Some "home-2"
  ∧ tokenExpires (mgr w) = Some 90000
  ∧ outcome 0 w = Some (Ok (VToken (Some "for-gis")))
  ∧ federatedServers (mgr w) !! gis_root
    = Some {| st_token := Some "for-gis"; st_expires := Some 7700000 |}.
Proof. vm_compute. repeat split. Qed.

(** A portal given with two trailing slashes does not survive the round
    trip: [cleanUrl] strips one slash when the manager is built and the
    other when it is rebuilt. *)
Example roundtrip_needs_clean_portal :
  portal (manager_of slashed_options) = "https://portal.example.com/sharing/rest/"
  ∧ (deserialize (serialize (manager_of slashed_options)) ≫= λ m, Some (portal m))
    = Some "https://portal.example.com/sharing/rest".
Proof. vm_compute. repeat split. Qed.
